(** * Tales of Glarthford (Chinese pack): the Paratranz-to-GitHub script

    A shallow embedding of [.github/workflows/para2github.py] and the
    properties of its three pieces of logic: key reconciliation
    ([translate], [process_translation], [save_translation]), quest
    description aggregation ([normal_json2_ftb_desc]) and SNBT rendering
    ([escape_quotes], [json_to_nbt], [format_snbt]).

    Network and file access are not modelled: what [fetch_json] and the
    [open] calls return is an argument of the functions below. *)

From Stdlib Require Import List ZArith NArith String Ascii Bool Lia.
From Stdlib Require Import Permutation Sorted Orders Mergesort DecimalString.
Import ListNotations.

Set Implicit Arguments.

(** ** Python strings

    A Python [str] is a sequence of Unicode code points; [len], slicing,
    [startswith], [in], [split] and the comparison used by [sorted] all work
    on code points, so a string is a list of them. *)

Module PyStr.

Definition char := N.
Definition pystr := list char.

(** An ASCII literal of the script. *)
Definition py (s : string) : pystr :=
  map N_of_ascii (list_ascii_of_string s).

Fixpoint eqb (a b : pystr) : bool :=
  match a, b with
  | [], [] => true
  | x :: a', y :: b' => N.eqb x y && eqb a' b'
  | _, _ => false
  end.

(** [s.startswith(p)] *)
Fixpoint startswith (p s : pystr) : bool :=
  match p, s with
  | [], _ => true
  | x :: p', y :: s' => N.eqb x y && startswith p' s'
  | _ :: _, [] => false
  end.

(** [sub in s] *)
Fixpoint contains (sub s : pystr) : bool :=
  startswith sub s
  || match s with
     | [] => false
     | _ :: s' => contains sub s'
     end.

(** [s.split(sep)] for a one-character separator. *)
Fixpoint split (sep : char) (s : pystr) : list pystr :=
  match s with
  | [] => [[]]
  | c :: s' =>
      if N.eqb c sep then [] :: split sep s'
      else match split sep s' with
           | seg :: segs => (c :: seg) :: segs
           | [] => [[c]]
           end
  end.

(** [s.replace(c, t)] for a one-character pattern. *)
Fixpoint replace (c : char) (t : pystr) (s : pystr) : pystr :=
  match s with
  | [] => []
  | x :: s' => (if N.eqb x c then t else [x]) ++ replace c t s'
  end.

(** [a <= b] on strings: lexicographic on code points. *)
Fixpoint leb (a b : pystr) : bool :=
  match a, b with
  | [], _ => true
  | _ :: _, [] => false
  | x :: a', y :: b' =>
      if N.ltb x y then true
      else if N.ltb y x then false
      else leb a' b'
  end.

Definition dot : char := 46%N.
Definition space : char := 32%N.
Definition nbsp : char := 160%N.
Definition backslash : char := 92%N.
Definition newline : char := 10%N.
Definition dquote : char := 34%N.
Definition letter_n : char := 110%N.

End PyStr.

Import PyStr.

(** ** Exceptions *)

Inductive exn : Type :=
| KeyError
| IndexError
| ValueError
| OutOfRange
| IncompatibleItemType.

Inductive result (A : Type) : Type :=
| Ok (a : A)
| Raise (e : exn).

Arguments Ok {A} a.
Arguments Raise {A} e.

Definition bind {A B : Type} (r : result A) (f : A -> result B) : result B :=
  match r with
  | Ok a => f a
  | Raise e => Raise e
  end.

Notation "x <- r ;; k" := (bind r (fun x => k))
  (at level 61, r at next level, right associativity).

(** A list comprehension whose body may raise: the elements are computed
    from left to right and the first exception ends the comprehension. *)
Section Comprehension.

Variables A B : Type.
Variable f : A -> result B.

Fixpoint mapM (l : list A) : result (list B) :=
  match l with
  | [] => Ok []
  | a :: rest =>
      v <- f a ;;
      r <- mapM rest ;;
      Ok (v :: r)
  end.

End Comprehension.

(** ** Python dictionaries

    A [dict] keeps its keys in insertion order and the script depends on
    it, so a dictionary is an association list; [wf] says that no key
    occurs twice, which every Python [dict] satisfies. *)

Module PyDict.
Section Dict.

Variable V : Type.

Definition dict := list (pystr * V).

Definition keys (d : dict) : list pystr := map fst d.

Definition wf (d : dict) : Prop := NoDup (keys d).

(** [d.get(k)] *)
Fixpoint get (k : pystr) (d : dict) : option V :=
  match d with
  | [] => None
  | (k', v) :: d' => if PyStr.eqb k k' then Some v else get k d'
  end.

(** [k in d] *)
Definition mem (k : pystr) (d : dict) : bool :=
  match get k d with
  | Some _ => true
  | None => false
  end.

(** [d.get(k, default)] *)
Definition get_default (k : pystr) (d : dict) (default : V) : V :=
  match get k d with
  | Some v => v
  | None => default
  end.

(** [d[k]] *)
Definition getitem (k : pystr) (d : dict) : result V :=
  match get k d with
  | Some v => Ok v
  | None => Raise KeyError
  end.

(** [d[k] = v]: an existing key keeps its place, a new one goes last. *)
Fixpoint set (k : pystr) (v : V) (d : dict) : dict :=
  match d with
  | [] => [(k, v)]
  | (k', v') :: d' =>
      if PyStr.eqb k k' then (k', v) :: d' else (k', v') :: set k v d'
  end.

(** [d.pop(k, None)] *)
Fixpoint pop (k : pystr) (d : dict) : dict :=
  match d with
  | [] => []
  | (k', v') :: d' =>
      if PyStr.eqb k k' then pop k d' else (k', v') :: pop k d'
  end.

(** [d.update(e)] *)
Definition update (d e : dict) : dict :=
  fold_left (fun acc kv => set (fst kv) (snd kv) acc) e d.

End Dict.
End PyDict.

Import PyDict.

(** ** [translate]: the resolved value of each entry

    An item of the service's answer has a key and a stage; [translation]
    and [original] are read with [item.get(..., "")], so they may be missing
    (or null). *)

Record TranslationEntry : Type := {
  item_key : pystr;
  item_original : option pystr;
  item_translation : option pystr;
  item_stage : Z
}.

(** [item.get(field, "")] followed by the truth test [not translation]. *)
Definition text_or_empty (o : option pystr) : pystr :=
  match o with
  | Some s => s
  | None => []
  end.

Definition falsy (o : option pystr) : bool :=
  match o with
  | Some (_ :: _) => false
  | _ => true
  end.

(** [item["stage"] in [0, -1, 2]] *)
Definition stage_uses_original (stage : Z) : bool :=
  (Z.eqb stage 0 || Z.eqb stage (-1) || Z.eqb stage 2)%bool.

Definition resolved_value (item : TranslationEntry) : pystr :=
  let translation := item_translation item in
  let original := text_or_empty (item_original item) in
  if stage_uses_original (item_stage item) || falsy translation
  then original
  else text_or_empty translation.

Definition translate (translations : list TranslationEntry)
  : list pystr * list pystr :=
  (map item_key translations, map resolved_value translations).

(** ** [process_translation]: text normalisation *)

(** [re.sub(r'\\\\', r'\\', value)]: each pair of backslashes, found from
    the left without overlap, becomes one backslash. *)
Fixpoint sub_double_backslash (value : pystr) : pystr :=
  match value with
  | [] => []
  | c :: rest =>
      match rest with
      | c' :: rest' =>
          if N.eqb c backslash && N.eqb c' backslash
          then backslash :: sub_double_backslash rest'
          else c :: sub_double_backslash rest
      | [] => [c]
      end
  end.

(** [re.sub(r'\\n', '\n', value)]: a backslash followed by the letter n
    becomes a line feed. *)
Fixpoint sub_backslash_n (value : pystr) : pystr :=
  match value with
  | [] => []
  | c :: rest =>
      match rest with
      | c' :: rest' =>
          if N.eqb c backslash && N.eqb c' letter_n
          then newline :: sub_backslash_n rest'
          else c :: sub_backslash_n rest
      | [] => [c]
      end
  end.

(** [re.search(r'[\u4e00-\u9fff]', value)] *)
Definition is_cjk (c : char) : bool :=
  (N.leb 19968 c && N.leb c 40959)%bool.

Definition has_cjk (value : pystr) : bool := existsb is_cjk value.

(** [re.sub(' ', '\u00A0', value)], also [value.replace(' ', '\u00A0')] *)
Definition sub_space (value : pystr) : pystr :=
  PyStr.replace space [nbsp] value.

(** The body of the loop of [process_translation] on one value. *)
Definition normalize (value : pystr) : pystr :=
  let value := sub_double_backslash value in
  let value := sub_backslash_n value in
  if has_cjk value then sub_space value else value.

(** The value kept for a file whose name contains [ftbquest]. *)
Definition ftbquest_value (value : pystr) : pystr :=
  if negb (contains (py "image") value) && has_cjk value
  then sub_space value
  else value.

(** [{key: f(value) for key, value in zip(keys, values)}] *)
Definition dict_of_pairs (V : Type) (kvs : list (pystr * V)) : dict V :=
  update [] kvs.

Definition process_translation (translations : list TranslationEntry)
  (local_source : option (dict pystr)) (path_name : pystr) : dict pystr :=
  let (keys, values) := translate translations in
  let zh_cn_dict :=
    match local_source with
    | Some d => d
    | None => []
    end in
  let zh_cn_dict :=
    fold_left (fun d kv => set (fst kv) (normalize (snd kv)) d)
      (combine keys values) zh_cn_dict in
  if contains (py "ftbquest") path_name
  then dict_of_pairs (combine keys (map ftbquest_value values))
  else zh_cn_dict.

(** ** [save_translation]: key reconciliation *)

(** What the function prints. *)
Inductive event : Type :=
| UnmatchedKey (preview : pystr)
| MissingSource.

(** [sorted] on strings.  Python's sort is stable and so is the merge sort
    of the standard library; on a total order the two return the same
    list. *)
Module PyStrOrder <: TotalLeBool.
Definition t := pystr.
Definition leb := PyStr.leb.
Lemma leb_total : forall a b, leb a b = true \/ leb b a = true.
Proof.
  unfold leb.
  induction a as [|x a IH]; intros [|y b]; simpl; auto.
  destruct (N.ltb_spec x y); auto.
  destruct (N.ltb_spec y x); auto.
Qed.
End PyStrOrder.

Module PySort := Sort PyStrOrder.

Definition sorted (l : list pystr) : list pystr := PySort.sort l.

Section SaveTranslation.

Variable V : Type.

(** Lines 91-97: keys found in the source file keep their value, the
    others are set aside. *)
Fixpoint direct_match (items : list (pystr * V)) (source_json : dict V)
  (corrected_zh_cn_dict : dict V) (unmatched_paratranz_keys : list pystr)
  : dict V * list pystr :=
  match items with
  | [] => (corrected_zh_cn_dict, unmatched_paratranz_keys)
  | (pt_key, pt_value) :: rest =>
      if mem pt_key source_json
      then direct_match rest source_json
             (set pt_key pt_value corrected_zh_cn_dict)
             unmatched_paratranz_keys
      else direct_match rest source_json corrected_zh_cn_dict
             (unmatched_paratranz_keys ++ [pt_key])
  end.

Definition warning (pt_key : pystr) : event :=
  UnmatchedKey (firstn 50 pt_key).

(** Lines 101-113.  [source_keys_set] is the Python set of the source keys
    in the order the interpreter iterates it, which the script does not
    control; the inner loop with its [break] is [find]. *)
Fixpoint repair_truncated (unmatched_paratranz_keys : list pystr)
  (source_keys_set : list pystr) (zh_cn_dict : dict V)
  (corrected_zh_cn_dict : dict V) (log : list event)
  : result (dict V * list event) :=
  match unmatched_paratranz_keys with
  | [] => Ok (corrected_zh_cn_dict, log)
  | pt_key :: rest =>
      if Nat.eqb (List.length pt_key) 255 then
        match find (startswith pt_key) source_keys_set with
        | Some source_key =>
            v <- getitem pt_key zh_cn_dict ;;
            repair_truncated rest source_keys_set zh_cn_dict
              (set source_key v corrected_zh_cn_dict) log
        | None =>
            repair_truncated rest source_keys_set zh_cn_dict
              corrected_zh_cn_dict (log ++ [warning pt_key])
        end
      else
        repair_truncated rest source_keys_set zh_cn_dict
          corrected_zh_cn_dict (log ++ [warning pt_key])
  end.

(** Lines 116-119. *)
Fixpoint build_final (source_keys : list pystr)
  (source_json corrected_zh_cn_dict : dict V) (final_json_object : dict V)
  : result (dict V) :=
  match source_keys with
  | [] => Ok final_json_object
  | source_key :: rest =>
      original <- getitem source_key source_json ;;
      build_final rest source_json corrected_zh_cn_dict
        (set source_key
           (get_default source_key corrected_zh_cn_dict original)
           final_json_object)
  end.

(** Line 128: [{key: zh_cn_dict[key] for key in sorted(zh_cn_dict.keys())}] *)
Fixpoint sorted_dict (sorted_keys : list pystr) (zh_cn_dict : dict V)
  (acc : dict V) : result (dict V) :=
  match sorted_keys with
  | [] => Ok acc
  | key :: rest =>
      v <- getitem key zh_cn_dict ;;
      sorted_dict rest zh_cn_dict (set key v acc)
  end.

(** The document [save_translation] dumps and what it prints.
    [source_json] is [None] when opening the source file raises
    [IOError]. *)
Definition save_translation (zh_cn_dict : dict V)
  (source_json : option (dict V)) (source_keys_set : list pystr)
  : result (dict V * list event) :=
  match source_json with
  | Some source_json =>
      let (corrected_zh_cn_dict, unmatched_paratranz_keys) :=
        direct_match zh_cn_dict source_json [] [] in
      r <- repair_truncated unmatched_paratranz_keys source_keys_set
             zh_cn_dict corrected_zh_cn_dict [] ;;
      final_json_object <-
        build_final (keys source_json) source_json (fst r) [] ;;
      Ok (final_json_object, snd r)
  | None =>
      d <- sorted_dict (sorted (keys zh_cn_dict)) zh_cn_dict [] ;;
      Ok (d, [MissingSource])
  end.

End SaveTranslation.

(** ** JSON values and NBT tags *)

(** What [json.load] can return.  A float is kept as mantissa and binary
    exponent; no function below looks inside it. *)
#[local] Unset Elimination Schemes.

Inductive json : Type :=
| JNull
| JBool (b : bool)
| JInt (n : Z)
| JFloat (mantissa exponent : Z)
| JStr (s : pystr)
| JList (l : list json)
| JDict (d : list (pystr * json)).

(** The tags of [nbtlib] the script builds. *)
Module nbtlib.

Inductive tag : Type :=
| Compound (d : list (pystr * tag))
| List (l : list tag)
| String (s : pystr)
| Int (n : Z).

(** [Int(n)]: an integer tag holds a signed 32-bit number and the
    constructor raises [OutOfRange] for any other. *)
Definition in_int32 (n : Z) : bool :=
  (Z.leb (- 2 ^ 31) n && Z.ltb n (2 ^ 31))%bool.

Definition new_Int (n : Z) : result tag :=
  if in_int32 n then Ok (Int n) else Raise OutOfRange.

(** [List[String](items)]: the constructor goes through the items in
    order; an item that is a string tag is kept, and any other tag raises
    [IncompatibleItemType]. *)
Definition cast_item (item : tag) : result tag :=
  match item with
  | String _ => Ok item
  | _ => Raise IncompatibleItemType
  end.

Definition new_List_String (items : list tag) : result tag :=
  l <- mapM cast_item items ;;
  Ok (List l).

End nbtlib.

#[local] Set Elimination Schemes.

(** Induction on a JSON value, with the hypothesis for every element of a
    sequence and every value of a mapping. *)
Fixpoint json_ind (P : json -> Prop)
  (HNull : P JNull) (HBool : forall b, P (JBool b))
  (HInt : forall n, P (JInt n)) (HFloat : forall m e, P (JFloat m e))
  (HStr : forall s, P (JStr s))
  (HList : forall l, Forall P l -> P (JList l))
  (HDict : forall d, Forall (fun kv => P (snd kv)) d -> P (JDict d))
  (data : json) : P data :=
  let rec := json_ind HNull HBool HInt HFloat HStr HList HDict in
  match data with
  | JNull => HNull
  | JBool b => HBool b
  | JInt n => HInt n
  | JFloat m e => HFloat m e
  | JStr s => HStr s
  | JList l =>
      HList l
        ((fix elements (l : list json) : Forall P l :=
            match l with
            | [] => Forall_nil P
            | item :: rest => Forall_cons item (rec item) (elements rest)
            end) l)
  | JDict d =>
      HDict d
        ((fix entries (d : list (pystr * json))
            : Forall (fun kv => P (snd kv)) d :=
            match d with
            | [] => Forall_nil _
            | kv :: rest =>
                Forall_cons kv (rec (snd kv)) (entries rest)
            end) d)
  end.

(** The test [isinstance(data, str)]. *)
Definition is_str (data : json) : bool :=
  match data with
  | JStr _ => true
  | _ => false
  end.

(** The values [json_to_nbt] builds a tree for: strings, what Python
    counts as an [int] within 32 bits, sequences of strings, and mappings
    of such values. *)
Fixpoint buildable (data : json) : bool :=
  match data with
  | JDict d => forallb (fun kv => buildable (snd kv)) d
  | JList l => forallb is_str l
  | JStr _ | JBool _ => true
  | JInt n => nbtlib.in_int32 n
  | JFloat _ _ | JNull => false
  end.

(** A float or a null occurs in the value. *)
Fixpoint has_float_or_null (data : json) : bool :=
  match data with
  | JDict d => existsb (fun kv => has_float_or_null (snd kv)) d
  | JList l => existsb has_float_or_null l
  | JFloat _ _ | JNull => true
  | JStr _ | JInt _ | JBool _ => false
  end.

(** [escape_quotes] *)
Fixpoint escape_quotes (data : json) : json :=
  match data with
  | JDict d => JDict (map (fun kv => (fst kv, escape_quotes (snd kv))) d)
  | JList l => JList (map escape_quotes l)
  | JStr s => JStr (PyStr.replace dquote [backslash; dquote] s)
  | _ => data
  end.

(** [json_to_nbt].  The [isinstance] tests run in the order dict, list,
    str, int; a Python [bool] is an instance of [int] ([True] is 1 and
    [False] is 0), so it takes the [Int] branch.  A comprehension over the
    items of a dictionary keeps their order.  In the list branch the
    comprehension is computed first and its items are then handed to
    [List[String]]. *)
Fixpoint json_to_nbt (data : json) : result nbtlib.tag :=
  match data with
  | JDict d =>
      d' <- mapM (fun kv => v <- json_to_nbt (snd kv) ;; Ok (fst kv, v)) d ;;
      Ok (nbtlib.Compound d')
  | JList l =>
      items <- mapM json_to_nbt l ;;
      nbtlib.new_List_String items
  | JStr s => Ok (nbtlib.String s)
  | JInt n => nbtlib.new_Int n
  | JBool b => nbtlib.new_Int (if b then 1 else 0)%Z
  | JFloat _ _ => Raise ValueError
  | JNull => Raise ValueError
  end.

(** [str] of an [nbtlib] integer tag, as line 208 gets it.  [int] defines
    no [__str__] of its own, so [str] falls back on the [__repr__] of the
    tag, which writes the class name around the decimal number.  A string
    tag is a [str] and [str] of it is its text. *)
Definition tag_str (n : Z) : pystr :=
  py "Int(" ++ py (NilZero.string_of_int (Z.to_int n)) ++ py ")".

Definition INDENT_SIZE : nat := 4.

(** [format_snbt]: the pieces are collected in [formatted] and joined. *)
Fixpoint format_snbt (nbt_data : nbtlib.tag) (indent : nat) : pystr :=
  let indent_str := repeat space indent in
  match nbt_data with
  | nbtlib.Compound d =>
      let formatted :=
        [py "{"]
        ++ map (fun kv =>
                  [newline] ++ indent_str ++ repeat space INDENT_SIZE
                  ++ fst kv ++ py ":"
                  ++ format_snbt (snd kv) (indent + INDENT_SIZE)) d
        ++ [[newline] ++ indent_str ++ py "}"] in
      List.concat formatted
  | nbtlib.List l =>
      let formatted :=
        [py "["]
        ++ map (fun item =>
                  [newline] ++ indent_str ++ repeat space INDENT_SIZE
                  ++ format_snbt item (indent + INDENT_SIZE)) l
        ++ [[newline] ++ indent_str ++ py "]"] in
      List.concat formatted
  | nbtlib.String s => [dquote] ++ s ++ [dquote]
  | nbtlib.Int n => [dquote] ++ tag_str n ++ [dquote]
  end.

(** ** [normal_json2_ftb_desc]: quest description aggregation *)

(** Lines 231-233: the values of the keys that contain [pattern]. *)
Fixpoint quest_desc_values (ks : list pystr) (pattern : pystr)
  (en_json : dict json) : result (list json) :=
  match ks with
  | [] => Ok []
  | k :: rest =>
      if contains pattern k then
        v <- getitem k en_json ;;
        temp_json_array <- quest_desc_values rest pattern en_json ;;
        Ok (v :: temp_json_array)
      else quest_desc_values rest pattern en_json
  end.

(** [temp_set.add(key)] *)
Definition set_add (key : pystr) (s : list pystr) : list pystr :=
  if existsb (PyStr.eqb key) s then s else s ++ [key].

(** Lines 227-236. *)
Fixpoint collect_desc (items : list (pystr * json)) (en_json : dict json)
  (temp_set : list pystr) (temp_en_json : dict json)
  : result (list pystr * dict json) :=
  match items with
  | [] => Ok (temp_set, temp_en_json)
  | (key, value) :: rest =>
      if contains (py "desc") key then
        match nth_error (split dot key) 1 with
        | Some key_id =>
            temp_json_array <-
              quest_desc_values (keys en_json) (key_id ++ py ".quest_desc")
                en_json ;;
            let new_key := py "quest." ++ key_id ++ py ".quest_desc" in
            collect_desc rest en_json (set_add key temp_set)
              (set new_key (JList temp_json_array) temp_en_json)
        | None => Raise IndexError
        end
      else collect_desc rest en_json temp_set temp_en_json
  end.

(** Lines 237-238. *)
Definition pop_all (temp_set : list pystr) (en_json : dict json)
  : dict json :=
  fold_left (fun d key => pop key d) temp_set en_json.

(** The document handed over is a lang file: its values are strings, on
    which [eval(json.dumps(...))] is a copy.  The set [temp_set] is walked
    here in insertion order; [pop_all_order] shows that the order does not
    matter. *)
Definition normal_json2_ftb_desc (origin_en_us : dict pystr)
  : result (dict json) :=
  let en_json : dict json :=
    map (fun kv => (fst kv, JStr (snd kv))) origin_en_us in
  r <- collect_desc en_json en_json [] [] ;;
  let en_json := pop_all (fst r) en_json in
  Ok (update en_json (snd r)).

(** ** Vocabulary of the statements *)

Section Vocabulary.

Variable V : Type.

(** The entries whose key is a key of the source, and the others. *)
Definition matched (source : dict V) (kv : pystr * V) : bool :=
  mem (fst kv) source.

Definition unmatched (source : dict V) (kv : pystr * V) : bool :=
  negb (mem (fst kv) source).

(** A source entry with its value replaced when [corrected] has one. *)
Definition final_entry (corrected : dict V) (kv : pystr * V) : pystr * V :=
  (fst kv, get_default (fst kv) corrected (snd kv)).

End Vocabulary.

(** An unmatched key is repaired when it has 255 characters and some source
    key, in the order the set is walked, starts with it; otherwise it is
    dropped. *)
Definition dropped (order : list pystr) (k : pystr) : Prop :=
  List.length k <> 255 \/ find (startswith k) order = None.

(** The entries for which [translate] keeps the original text. *)
Definition uses_original (item : TranslationEntry) : Prop :=
  item_stage item = 0%Z \/ item_stage item = (-1)%Z \/
  item_stage item = 2%Z \/
  item_translation item = None \/ item_translation item = Some [].

(** Rule (c) of the normalisation, character by character. *)
Definition space_to_nbsp (c : char) : char :=
  if N.eqb c space then nbsp else c.

(** The text after rules (a) and (b). *)
Definition unescaped (value : pystr) : pystr :=
  sub_backslash_n (sub_double_backslash value).

(** [ni hao, space, shi jie] in code points. *)
Definition hello_world_zh : pystr :=
  [20320; 22909; 32; 19990; 30028]%N.

(** The precondition of [normal_json2_ftb_desc]: a key that contains [desc]
    has a dot. *)
Definition desc_keys_have_dot (V : Type) (doc : dict V) : Prop :=
  forall k, In k (keys doc) -> contains (py "desc") k = true -> In dot k.

(** The entries whose key contains [pattern]. *)
Definition key_contains (V : Type) (pattern : pystr) (kv : pystr * V)
  : bool :=
  contains pattern (fst kv).

(** A scalar as [format_snbt] writes it. *)
Definition quoted (s : pystr) : pystr := [dquote] ++ s ++ [dquote].

(** One line of a block of [format_snbt] at nesting depth [indent]. *)
Definition compound_line (indent : nat) (kv : pystr * nbtlib.tag) : pystr :=
  [newline] ++ repeat space (indent + INDENT_SIZE) ++ fst kv ++ py ":"
  ++ format_snbt (snd kv) (indent + INDENT_SIZE).

Definition list_line (indent : nat) (item : nbtlib.tag) : pystr :=
  [newline] ++ repeat space (indent + INDENT_SIZE)
  ++ format_snbt item (indent + INDENT_SIZE).

(** The test [isinstance(item, String)] on a tag. *)
Definition is_String (t : nbtlib.tag) : bool :=
  match t with
  | nbtlib.String _ => true
  | _ => false
  end.

(** The exceptions [json_to_nbt] can raise. *)
Definition build_error (e : exn) : Prop :=
  e = ValueError \/ e = OutOfRange \/ e = IncompatibleItemType.

(** The keys of [ks] that are not in [seen], each at its first
    occurrence. *)
Fixpoint first_new_keys (seen ks : list pystr) : list pystr :=
  match ks with
  | [] => []
  | k :: rest =>
      if existsb (PyStr.eqb k) seen then first_new_keys seen rest
      else k :: first_new_keys (seen ++ [k]) rest
  end.

(** The keys whose text [normal_json2_ftb_desc] can use: those without
    [desc] and those with [.quest_desc]. *)
Definition text_matters (k : pystr) : bool :=
  negb (contains (py "desc") k) || contains (py ".quest_desc") k.

(** Two documents with the same keys in the same order and the same text
    wherever the text matters. *)
Definition same_kept_text (doc doc' : dict pystr) : Prop :=
  Forall2 (fun kv kv' => fst kv = fst kv' /\
                         (text_matters (fst kv) = true -> snd kv = snd kv'))
    doc doc'.

(** ** Sample inputs *)

(** The mapping of the serialisation example, its tree and its text. *)
Definition sample_json : json :=
  JDict [(py "a", JInt 1); (py "b", JList [JStr (py "x"); JStr (py "y")])].

Definition sample_tree : nbtlib.tag :=
  nbtlib.Compound
    [(py "a", nbtlib.Int 1);
     (py "b", nbtlib.List [nbtlib.String (py "x"); nbtlib.String (py "y")])].


(** One quest with a description of two lines. *)
Definition quest_doc (desc : pystr) : dict pystr :=
  [(py "quest.1.desc", desc);
   (py "quest.1.quest_desc.0", py "A");
   (py "quest.1.quest_desc.1", py "B")].

(** Two quests, one identifier ending with the other. *)
Definition overlapping_doc (desc x y : pystr) : dict pystr :=
  [(py "quest.1.desc", desc);
   (py "quest.1.quest_desc.0", x);
   (py "quest.11.quest_desc.0", y)].

(** The scenario of the specification: the source has [a] and [b], the
    service returns one translated entry for [a]. *)
Definition scenario_source : dict pystr :=
  [(py "a", py "A"); (py "b", py "B")].

Definition scenario_entries : list TranslationEntry :=
  [{| item_key := py "a"; item_original := Some (py "A");
      item_translation := Some [30002%N]; item_stage := 1 |}].

(** A source key of 260 characters and the 255 characters the service
    keeps of it. *)
Definition truncated_key : pystr := repeat 97%N 255.

Definition long_source : dict pystr :=
  [(py "title", py "Title"); (truncated_key ++ py ".tail", py "Long")].

Definition truncated_entries : dict pystr :=
  [(truncated_key, py "translated"); (py "stray", py "lost")].

(** ** Vocabulary of the further properties *)

(** The test of lines 104-110 on one unmatched key: it has 255 characters
    and some source key starts with it. *)
Definition repaired (order : list pystr) (k : pystr) : bool :=
  Nat.eqb (List.length k) 255
  && match find (startswith k) order with
     | Some _ => true
     | None => false
     end.

(** The dictionary [process_translation] hands over in the scenario. *)
Definition scenario_dict : dict pystr :=
  process_translation scenario_entries (Some scenario_source)
    (py "en_us.json").

(** Entries none of which has a place in [long_source]. *)
Definition stray_entries : dict pystr :=
  [(py "stray", py "lost"); (py "other", py "gone")].

(** The key [normal_json2_ftb_desc] builds for a quest identifier. *)
Definition new_key (key_id : pystr) : pystr :=
  py "quest." ++ key_id ++ py ".quest_desc".

(** A lang file as [normal_json2_ftb_desc] holds it. *)
Definition as_json (doc : dict pystr) : dict json :=
  map (fun kv => (fst kv, JStr (snd kv))) doc.

(** The entries whose key contains [desc], and the others. *)
Definition has_desc (V : Type) (kv : pystr * V) : bool :=
  contains (py "desc") (fst kv).

Definition no_desc (V : Type) (kv : pystr * V) : bool :=
  negb (contains (py "desc") (fst kv)).

(** Lines 262-270 of [main]: the text written to the quest file, [None]
    when no quest entry was collected. *)
Definition quests_snbt (ftbquests_dict : dict pystr)
  : option (result pystr) :=
  if Nat.ltb 0 (List.length ftbquests_dict) then
    Some (snbt_dict <- normal_json2_ftb_desc ftbquests_dict ;;
          let json_data := escape_quotes (JDict snbt_dict) in
          nbt_data <- json_to_nbt json_data ;;
          Ok (format_snbt nbt_data 0))
  else None.




(** Induction on a tag, with the hypothesis for every element of a list
    and every value of a compound. *)
Fixpoint tag_ind (P : nbtlib.tag -> Prop)
  (HCompound : forall d, Forall (fun kv => P (snd kv)) d
                         -> P (nbtlib.Compound d))
  (HList : forall l, Forall P l -> P (nbtlib.List l))
  (HString : forall s, P (nbtlib.String s))
  (HInt : forall n, P (nbtlib.Int n))
  (t : nbtlib.tag) : P t :=
  let rec := tag_ind HCompound HList HString HInt in
  match t with
  | nbtlib.Compound d =>
      HCompound d
        ((fix entries (d : list (pystr * nbtlib.tag))
            : Forall (fun kv => P (snd kv)) d :=
            match d with
            | [] => Forall_nil _
            | kv :: rest => Forall_cons kv (rec (snd kv)) (entries rest)
            end) d)
  | nbtlib.List l =>
      HList l
        ((fix elements (l : list nbtlib.tag) : Forall P l :=
            match l with
            | [] => Forall_nil P
            | item :: rest => Forall_cons item (rec item) (elements rest)
            end) l)
  | nbtlib.String s => HString s
  | nbtlib.Int n => HInt n
  end.

(** A text without a line feed, and a tree whose keys and strings are
    such. *)
Definition no_newline (s : pystr) : bool :=
  forallb (fun c => negb (N.eqb c newline)) s.

Fixpoint newline_free (t : nbtlib.tag) : bool :=
  match t with
  | nbtlib.Compound d =>
      forallb (fun kv => no_newline (fst kv) && newline_free (snd kv)) d
  | nbtlib.List l => forallb newline_free l
  | nbtlib.String s => no_newline s
  | nbtlib.Int _ => true
  end.

(** Every line feed of [s] is followed by at least [n] spaces. *)
Fixpoint indented (n : nat) (s : pystr) : bool :=
  match s with
  | [] => true
  | c :: rest =>
      (if N.eqb c newline then startswith (repeat space n) rest else true)
      && indented n rest
  end.

(** One line of the text of a flat document. *)
Definition flat_line (kv : pystr * pystr) : pystr :=
  [newline] ++ py "    " ++ fst kv ++ py ":" ++ quoted (snd kv).

(** What [process_translation] starts from: the local source file, nothing
    when reading it raises [IOError]. *)
Definition local_entries (local_source : option (dict pystr))
  : dict pystr :=
  match local_source with
  | Some d => d
  | None => []
  end.

(** * Properties *)

(** ** Strings *)

Lemma eqb_eq : forall a b : pystr, PyStr.eqb a b = true <-> a = b.
Proof.
  induction a as [|x a IH]; intros [|y b]; simpl; split; intro H;
    try reflexivity; try discriminate.
  - apply andb_true_iff in H as [Hx Hab].
    apply N.eqb_eq in Hx. apply IH in Hab. congruence.
  - injection H as -> ->. rewrite N.eqb_refl. simpl. now apply IH.
Qed.

Lemma eqb_refl : forall a : pystr, PyStr.eqb a a = true.
Proof. intro a. now apply eqb_eq. Qed.

Lemma eqb_neq : forall a b : pystr, PyStr.eqb a b = false <-> a <> b.
Proof.
  intros a b. split.
  - intros H E. apply eqb_eq in E. congruence.
  - intro H. destruct (PyStr.eqb a b) eqn:E; [|reflexivity].
    apply eqb_eq in E. contradiction.
Qed.

Lemma eqb_sym : forall a b : pystr, PyStr.eqb a b = PyStr.eqb b a.
Proof.
  intros a b. destruct (PyStr.eqb b a) eqn:E.
  - apply eqb_eq in E. subst. apply eqb_refl.
  - apply eqb_neq in E. apply eqb_neq. congruence.
Qed.

Lemma pystr_eq_dec : forall a b : pystr, {a = b} + {a <> b}.
Proof. apply list_eq_dec, N.eq_dec. Qed.

(** [startswith] is the prefix relation. *)
Lemma startswith_app : forall p s,
  startswith p s = true <-> exists t, s = p ++ t.
Proof.
  induction p as [|x p IH]; intros s; simpl.
  - split; [intros _; now exists s | reflexivity].
  - destruct s as [|y s].
    + split; [discriminate | intros [t H]; discriminate].
    + rewrite andb_true_iff, N.eqb_eq, IH. split.
      * intros [-> [t ->]]. now exists t.
      * intros [t H]. injection H as -> ->. split; [reflexivity | now exists t].
Qed.

Lemma startswith_firstn : forall p s,
  startswith p s = true -> firstn (List.length p) s = p.
Proof.
  intros p s H. apply startswith_app in H as [t ->].
  rewrite firstn_app, Nat.sub_diag, firstn_all. simpl. apply app_nil_r.
Qed.

(** Two prefixes of one string that have the same length are equal. *)
Lemma startswith_same_length : forall p q s,
  startswith p s = true -> startswith q s = true ->
  List.length p = List.length q -> p = q.
Proof.
  intros p q s Hp Hq Hlen.
  apply startswith_firstn in Hp. apply startswith_firstn in Hq.
  rewrite <- Hp, <- Hq, Hlen. reflexivity.
Qed.

Lemma leb_trans : forall a b c,
  PyStr.leb a b = true -> PyStr.leb b c = true -> PyStr.leb a c = true.
Proof.
  induction a as [|x a IH]; intros [|y b] [|z c]; simpl; auto;
    try discriminate.
  destruct (N.ltb_spec x y), (N.ltb_spec y x), (N.ltb_spec y z),
    (N.ltb_spec z y), (N.ltb_spec x z), (N.ltb_spec z x);
    try lia; try discriminate; auto.
  apply IH.
Qed.

(** ** Dictionaries *)

Section DictFacts.

Variable V : Type.
Implicit Types (d : dict V) (k : pystr) (v : V).

Lemma get_None_keys : forall d k, get k d = None <-> ~ In k (keys d).
Proof.
  induction d as [|[k' v'] d IH]; intros k; simpl.
  - tauto.
  - destruct (PyStr.eqb k k') eqn:E.
    + apply eqb_eq in E. subst. split; [discriminate | tauto].
    + apply eqb_neq in E. rewrite IH. split.
      * intros H [H'|H']; [congruence | tauto].
      * tauto.
Qed.

Lemma get_Some_keys : forall d k v, get k d = Some v -> In k (keys d).
Proof.
  intros d k v H. destruct (in_dec pystr_eq_dec k (keys d)) as [|n]; auto.
  apply get_None_keys in n. congruence.
Qed.

Lemma keys_get_Some : forall d k, In k (keys d) -> exists v, get k d = Some v.
Proof.
  intros d k H. destruct (get k d) as [v|] eqn:E; [now exists v|].
  apply get_None_keys in E. contradiction.
Qed.

Lemma mem_keys : forall d k, mem k d = true <-> In k (keys d).
Proof.
  intros d k. unfold mem. destruct (get k d) eqn:E.
  - split; auto. intros _. eapply get_Some_keys; eauto.
  - apply get_None_keys in E. split; [discriminate | contradiction].
Qed.

Lemma mem_false_keys : forall d k, mem k d = false <-> ~ In k (keys d).
Proof.
  intros d k. rewrite <- mem_keys. destruct (mem k d); split; congruence.
Qed.

Lemma getitem_keys : forall d k,
  In k (keys d) -> exists v, getitem k d = Ok v /\ get k d = Some v.
Proof.
  intros d k H. apply keys_get_Some in H as [v H]. exists v.
  unfold getitem. now rewrite H.
Qed.

Lemma get_app : forall d e k,
  get k (d ++ e) = match get k d with Some v => Some v | None => get k e end.
Proof.
  induction d as [|[k' v'] d IH]; intros e k; simpl; auto.
  destruct (PyStr.eqb k k'); auto.
Qed.

Lemma get_set_same : forall d k v, get k (set k v d) = Some v.
Proof.
  induction d as [|[k' v'] d IH]; intros k v; simpl.
  - now rewrite eqb_refl.
  - destruct (PyStr.eqb k k') eqn:E; simpl; rewrite E; auto.
Qed.

Lemma get_set_other : forall d k k' v,
  k <> k' -> get k (set k' v d) = get k d.
Proof.
  induction d as [|[k0 v0] d IH]; intros k k' v H; simpl.
  - apply eqb_neq in H. now rewrite H.
  - destruct (PyStr.eqb k' k0) eqn:E; simpl.
    + apply eqb_eq in E. subst. apply eqb_neq in H. now rewrite H.
    + destruct (PyStr.eqb k k0); auto.
Qed.

Lemma set_new : forall d k v,
  ~ In k (keys d) -> set k v d = d ++ [(k, v)].
Proof.
  induction d as [|[k' v'] d IH]; intros k v H; simpl in *; auto.
  destruct (PyStr.eqb k k') eqn:E.
  - apply eqb_eq in E. subst. tauto.
  - f_equal. apply IH. tauto.
Qed.

Lemma keys_set_old : forall d k v,
  In k (keys d) -> keys (set k v d) = keys d.
Proof.
  induction d as [|[k' v'] d IH]; intros k v H; simpl in *; [tauto|].
  destruct (PyStr.eqb k k') eqn:E; simpl; auto.
  f_equal. apply IH. destruct H as [H|H]; auto.
  apply eqb_neq in E. congruence.
Qed.

Lemma keys_set_In : forall d k k' v,
  In k (keys (set k' v d)) <-> k = k' \/ In k (keys d).
Proof.
  intros d k k' v.
  destruct (in_dec pystr_eq_dec k' (keys d)) as [i|n].
  - rewrite keys_set_old by assumption. split; auto.
    intros [->|H]; auto.
  - rewrite set_new by assumption. unfold keys. rewrite map_app, in_app_iff.
    simpl. intuition congruence.
Qed.

Lemma wf_set : forall d k v, wf d -> wf (set k v d).
Proof.
  intros d k v H. unfold wf in *.
  destruct (in_dec pystr_eq_dec k (keys d)) as [i|n].
  - now rewrite keys_set_old.
  - rewrite set_new by assumption. unfold keys in *. rewrite map_app. simpl.
    apply NoDup_app; auto.
    + constructor; [tauto | constructor].
    + intros a Ha [<-|[]]. contradiction.
Qed.

Lemma keys_pop : forall d k,
  keys (pop k d) = filter (fun k' => negb (PyStr.eqb k k')) (keys d).
Proof.
  induction d as [|[k' v'] d IH]; intros k; simpl; auto.
  destruct (PyStr.eqb k k'); simpl; rewrite IH; auto.
Qed.

Lemma get_pop_same : forall d k, get k (pop k d) = None.
Proof.
  intros d k. apply get_None_keys. rewrite keys_pop, filter_In.
  rewrite eqb_refl. intros [_ H]. discriminate.
Qed.

Lemma get_pop_other : forall d k k', k <> k' -> get k (pop k' d) = get k d.
Proof.
  induction d as [|[k0 v0] d IH]; intros k k' H; simpl; auto.
  destruct (PyStr.eqb k' k0) eqn:E; simpl.
  - apply eqb_eq in E. subst. pose proof H as H'. apply eqb_neq in H'.
    rewrite H'. now apply IH.
  - destruct (PyStr.eqb k k0); auto.
Qed.

Lemma pop_absent : forall d k, ~ In k (keys d) -> pop k d = d.
Proof.
  induction d as [|[k' v'] d IH]; intros k H; simpl in *; auto.
  destruct (PyStr.eqb k k') eqn:E.
  - apply eqb_eq in E. subst. tauto.
  - f_equal. apply IH. tauto.
Qed.

Lemma pop_comm : forall d k k', pop k (pop k' d) = pop k' (pop k d).
Proof.
  induction d as [|[k0 v0] d IH]; intros k k'; simpl; auto.
  destruct (PyStr.eqb k' k0) eqn:E1, (PyStr.eqb k k0) eqn:E2; simpl;
    rewrite ?E1, ?E2; auto. now rewrite IH.
Qed.

Lemma wf_pop : forall d k, wf d -> wf (pop k d).
Proof.
  intros d k H. unfold wf in *. rewrite keys_pop. now apply NoDup_filter.
Qed.

Lemma wf_update : forall e d, wf d -> wf (update d e).
Proof.
  unfold update. induction e as [|[k v] e IH]; intros d H; simpl; auto.
  apply IH. now apply wf_set.
Qed.

End DictFacts.

(** ** Reconciliation *)

Section SaveTranslationFacts.

Variable V : Type.
Implicit Types (zh source corrected : dict V) (k : pystr).

(** The first loop splits the entries in two and keeps their order. *)
Lemma direct_match_spec : forall items source corrected u,
  direct_match items source corrected u =
  (update corrected (filter (matched source) items),
   u ++ keys (filter (unmatched source) items)).
Proof.
  induction items as [|[k v] items IH]; intros source corrected u; simpl.
  - now rewrite app_nil_r.
  - unfold matched, unmatched. simpl. destruct (mem k source); simpl.
    + apply IH.
    + rewrite IH. now rewrite <- app_assoc.
Qed.

Lemma unmatched_keys_In : forall zh source k,
  In k (keys (filter (unmatched source) zh)) <->
  In k (keys zh) /\ mem k source = false.
Proof.
  intros zh source k. unfold keys. rewrite !in_map_iff. split.
  - intros [[k' v] [<- H]]. apply filter_In in H as [H1 H2].
    unfold unmatched in H2. simpl in *. apply negb_true_iff in H2.
    split; auto. now exists (k', v).
  - intros [[[k' v] [<- H1]] H2]. exists (k', v). split; auto.
    apply filter_In. split; auto. unfold unmatched. simpl in *.
    now rewrite H2.
Qed.

Lemma NoDup_keys_filter : forall (f : pystr * V -> bool) (d : dict V),
  wf d -> wf (filter f d).
Proof.
  unfold wf, keys. induction d as [|[k v] d IH]; intro H; simpl; auto.
  inversion H as [|? ? Hk Hd]; subst.
  destruct (f (k, v)); simpl; auto.
  constructor; auto. intro Hin. apply Hk.
  apply in_map_iff in Hin as [kv [E Hin]]. apply filter_In in Hin as [Hin _].
  apply in_map_iff. now exists kv.
Qed.

(** The second loop never raises: every key it looks up comes from the
    dictionary itself. *)
Lemma repair_truncated_total : forall u order zh corrected log,
  (forall k, In k u -> In k (keys zh)) ->
  exists c l, repair_truncated u order zh corrected log = Ok (c, l).
Proof.
  induction u as [|k u IH]; intros order zh corrected log H; simpl.
  - eauto.
  - assert (Hu : forall k', In k' u -> In k' (keys zh))
      by (intros; apply H; now right).
    destruct (Nat.eqb (List.length k) 255); [|now apply IH].
    destruct (find (startswith k) order); [|now apply IH].
    destruct (getitem_keys zh k) as [v [-> _]]; [apply H; now left|].
    simpl. now apply IH.
Qed.

Lemma build_final_app : forall s2 s1 corrected acc,
  wf (s1 ++ s2) -> keys acc = keys s1 ->
  build_final (keys s2) (s1 ++ s2) corrected acc =
  Ok (acc ++ map (final_entry corrected) s2).
Proof.
  induction s2 as [|[k o] s2 IH]; intros s1 corrected acc Hwf Hacc; simpl.
  - now rewrite app_nil_r.
  - assert (Hk : ~ In k (keys s1)).
    { unfold wf, keys in Hwf. rewrite map_app in Hwf. simpl in Hwf.
      apply NoDup_remove_2 in Hwf. intro Hin. apply Hwf.
      apply in_or_app. now left. }
    unfold getitem. rewrite get_app.
    apply get_None_keys in Hk as Hg. rewrite Hg. simpl. rewrite eqb_refl.
    simpl. rewrite set_new by now rewrite Hacc.
    replace (s1 ++ (k, o) :: s2) with ((s1 ++ [(k, o)]) ++ s2)
      by now rewrite <- app_assoc.
    rewrite IH.
    + now rewrite <- app_assoc.
    + now rewrite <- app_assoc.
    + unfold keys. rewrite !map_app. simpl. unfold keys in Hacc.
      now rewrite Hacc.
Qed.

(** The last loop, for a well-formed source, rebuilds the source entry by
    entry. *)
Lemma build_final_wf : forall source corrected,
  wf source ->
  build_final (keys source) source corrected [] =
  Ok (map (final_entry corrected) source).
Proof.
  intros source corrected H.
  apply (build_final_app source [] corrected []); auto.
Qed.

Lemma keys_final : forall source corrected,
  keys (map (final_entry corrected) source) = keys source.
Proof.
  intros source corrected. unfold keys. rewrite map_map. reflexivity.
Qed.

Lemma get_final : forall source corrected k o,
  get k source = Some o ->
  get k (map (final_entry corrected) source) =
  Some (get_default k corrected o).
Proof.
  induction source as [|[k' o'] source IH]; intros corrected k o H;
    simpl in *; [discriminate|].
  destruct (PyStr.eqb k k') eqn:E.
  - apply eqb_eq in E. subst. congruence.
  - now apply IH.
Qed.

(** With a source file, the function returns and its result is the source
    with some values replaced. *)
Lemma save_translation_source : forall zh source order,
  wf source ->
  exists corrected log,
    repair_truncated (keys (filter (unmatched source) zh)) order zh
      (update [] (filter (matched source) zh)) [] = Ok (corrected, log) /\
    save_translation zh (Some source) order =
    Ok (map (final_entry corrected) source, log).
Proof.
  intros zh source order Hwf. unfold save_translation.
  rewrite direct_match_spec. simpl.
  destruct (repair_truncated_total (keys (filter (unmatched source) zh))
              order zh (update [] (filter (matched source) zh)) [])
    as [c [l Hr]].
  { intros k Hk. now apply unmatched_keys_In in Hk. }
  exists c, l. split; auto. rewrite Hr. simpl.
  now rewrite build_final_wf.
Qed.

Lemma sorted_dict_app : forall ks zh acc,
  NoDup (keys acc ++ ks) -> (forall k, In k ks -> In k (keys zh)) ->
  exists d, sorted_dict ks zh acc = Ok d /\ keys d = keys acc ++ ks /\
    forall k, get k d =
      match get k acc with
      | Some v => Some v
      | None => if in_dec pystr_eq_dec k ks then get k zh else None
      end.
Proof.
  induction ks as [|k ks IH]; intros zh acc Hnd Hin; simpl.
  - exists acc. rewrite app_nil_r. repeat split; auto.
    intro k. now destruct (get k acc).
  - destruct (getitem_keys zh k) as [v [Hv Hg]]; [apply Hin; now left|].
    rewrite Hv. simpl.
    assert (Hk : ~ In k (keys acc)).
    { apply NoDup_remove_2 in Hnd. intro. apply Hnd. apply in_or_app. auto. }
    destruct (IH zh (set k v acc)) as [d [Hd [Hkeys Hget]]].
    + rewrite set_new by assumption. unfold keys. rewrite map_app. simpl.
      now rewrite <- app_assoc.
    + intros; apply Hin; now right.
    + exists d. split; [exact Hd|]. split.
      * rewrite Hkeys, set_new by assumption. unfold keys.
        rewrite map_app. simpl. now rewrite <- app_assoc.
      * intro k0. rewrite Hget.
        destruct (pystr_eq_dec k k0) as [<-|Hne].
        -- rewrite get_set_same. apply get_None_keys in Hk. now rewrite Hk.
        -- rewrite get_set_other by congruence.
           destruct (get k0 acc); auto.
           destruct (in_dec pystr_eq_dec k0 ks); auto.
Qed.

Lemma leb_transitive : Transitive (fun a b => is_true (PyStrOrder.leb a b)).
Proof. intros a b c. apply leb_trans. Qed.

(** Without a source file, the function returns the same entries with
    their keys sorted. *)
Lemma save_translation_no_source : forall zh order,
  wf zh ->
  exists doc,
    save_translation zh None order = Ok (doc, [MissingSource]) /\
    keys doc = sorted (keys zh) /\
    forall k, get k doc = get k zh.
Proof.
  intros zh order Hwf. unfold save_translation.
  assert (Hperm : Permutation (keys zh) (sorted (keys zh)))
    by apply PySort.Permuted_sort.
  destruct (sorted_dict_app (sorted (keys zh)) zh []) as [d [Hd [Hk Hg]]].
  - simpl. eapply Permutation_NoDup; eauto.
  - intros k Hin. eapply Permutation_in; [symmetry|]; eauto.
  - exists d. rewrite Hd. simpl. repeat split; auto.
    intro k. rewrite Hg. simpl.
    destruct (in_dec pystr_eq_dec k (sorted (keys zh))) as [i|n]; auto.
    symmetry. apply get_None_keys. intro Hin. apply n.
    eapply Permutation_in; eauto.
Qed.

End SaveTranslationFacts.

(** ** Truncated keys *)

Section RepairFacts.

Variable V : Type.
Variable order : list pystr.
Implicit Types (zh source corrected : dict V) (k sk : pystr).

Lemma dropped_step : forall k,
  dropped order k ->
  (if Nat.eqb (List.length k) 255
   then match find (startswith k) order with
        | Some _ => false
        | None => true
        end
   else true) = true.
Proof.
  intros k [H|H].
  - apply Nat.eqb_neq in H. now rewrite H.
  - rewrite H. now destruct (Nat.eqb (List.length k) 255).
Qed.

Lemma repair_truncated_log_mono : forall u zh corrected log c l e,
  repair_truncated u order zh corrected log = Ok (c, l) ->
  In e log -> In e l.
Proof.
  induction u as [|k u IH]; intros zh corrected log c l e H Hin; simpl in H.
  - now inversion H; subst.
  - destruct (Nat.eqb (List.length k) 255).
    + destruct (find (startswith k) order).
      * destruct (getitem k zh); simpl in H; [eauto | discriminate].
      * eapply IH; eauto. apply in_or_app. now left.
    + eapply IH; eauto. apply in_or_app. now left.
Qed.

(** A dropped order key leaves its warning in the log. *)
Lemma repair_truncated_warns : forall u zh corrected log c l k,
  repair_truncated u order zh corrected log = Ok (c, l) ->
  In k u -> dropped order k -> In (warning k) l.
Proof.
  induction u as [|k' u IH]; intros zh corrected log c l k H Hin Hd;
    simpl in *; [contradiction|].
  destruct Hin as [->|Hin].
  - pose proof (dropped_step Hd) as Hs.
    destruct (Nat.eqb (List.length k) 255).
    + destruct (find (startswith k) order); [discriminate|].
      eapply repair_truncated_log_mono; eauto.
      apply in_or_app. right. now left.
    + eapply repair_truncated_log_mono; eauto.
      apply in_or_app. right. now left.
  - destruct (Nat.eqb (List.length k') 255).
    + destruct (find (startswith k') order).
      * destruct (getitem k' zh); simpl in H; [eauto | discriminate].
      * eauto.
    + eauto.
Qed.

(** A dropped order key changes nothing but the log: the loop ends with the same
    dictionary when the key is taken out of the entries. *)
Lemma repair_truncated_drop : forall u zh corrected log c l k log0,
  repair_truncated u order zh corrected log = Ok (c, l) ->
  dropped order k ->
  exists l0,
    repair_truncated (filter (fun k' => negb (PyStr.eqb k k')) u) order
      (pop k zh) corrected log0 = Ok (c, l0).
Proof.
  induction u as [|k' u IH]; intros zh corrected log c l k log0 H Hd;
    simpl in *.
  - inversion H; subst. eauto.
  - destruct (PyStr.eqb k k') eqn:E; simpl.
    + apply eqb_eq in E. subst k'. pose proof (dropped_step Hd) as Hs.
      destruct (Nat.eqb (List.length k) 255).
      * destruct (find (startswith k) order); [discriminate|]. eauto.
      * eauto.
    + apply eqb_neq in E.
      destruct (Nat.eqb (List.length k') 255); [|eauto].
      destruct (find (startswith k') order); [|eauto].
      unfold getitem in *. rewrite get_pop_other by congruence.
      destruct (get k' zh); simpl in *; [eauto | discriminate].
Qed.

(** The loop changes the value at [sk] only through a key of 255
    characters whose first match is [sk]. *)
Lemma repair_truncated_get_other : forall u zh corrected log c l sk,
  repair_truncated u order zh corrected log = Ok (c, l) ->
  (forall k', In k' u -> List.length k' = 255 ->
     find (startswith k') order <> Some sk) ->
  get sk c = get sk corrected.
Proof.
  induction u as [|k' u IH]; intros zh corrected log c l sk H Hno; simpl in H.
  - now inversion H; subst.
  - assert (Hu : forall k0, In k0 u -> List.length k0 = 255 ->
              find (startswith k0) order <> Some sk)
      by (intros; apply Hno; auto; now right).
    destruct (Nat.eqb (List.length k') 255) eqn:El; [|eauto].
    apply Nat.eqb_eq in El.
    destruct (find (startswith k') order) as [sk'|] eqn:Ef; [|eauto].
    destruct (getitem k' zh) as [v'|]; simpl in H; [|discriminate].
    rewrite (IH _ _ _ _ _ _ H Hu). apply get_set_other.
    intros ->. apply (Hno k'); auto. now left.
Qed.

(** A key of 255 characters that some source key starts with ends bound,
    with its value, to the first such source key. *)
Lemma repair_truncated_binds : forall u zh corrected log c l k sk v,
  repair_truncated u order zh corrected log = Ok (c, l) ->
  NoDup u -> In k u -> get k zh = Some v ->
  List.length k = 255 -> find (startswith k) order = Some sk ->
  get sk c = Some v.
Proof.
  induction u as [|k' u IH];
    intros zh corrected log c l k sk v H Hnd Hin Hv Hlen Hf; simpl in *;
    [contradiction|].
  inversion Hnd as [|? ? Hk' Hu]; subst.
  destruct Hin as [->|Hin].
  - rewrite Hlen, Hf in H. simpl in H. unfold getitem in H.
    rewrite Hv in H. simpl in H.
    erewrite repair_truncated_get_other; eauto using get_set_same.
    intros k0 Hk0 Hl0 Hf0. apply Hk'.
    apply find_some in Hf as [_ Hp]. apply find_some in Hf0 as [_ Hp0].
    rewrite (startswith_same_length k k0 sk); auto. congruence.
  - destruct (Nat.eqb (List.length k') 255); [|eauto].
    destruct (find (startswith k') order); [|eauto].
    destruct (getitem k' zh); simpl in H; [eauto | discriminate].
Qed.

Lemma filter_matched_pop : forall zh source k,
  mem k source = false ->
  filter (matched source) (pop k zh) = filter (matched source) zh.
Proof.
  induction zh as [|[k' v'] zh IH]; intros source k H; simpl; auto.
  destruct (PyStr.eqb k k') eqn:E.
  - apply eqb_eq in E. subst k'. unfold matched at 2. simpl. rewrite H.
    now apply IH.
  - simpl. destruct (matched source (k', v')); rewrite IH; auto.
Qed.

Lemma filter_unmatched_pop : forall zh source k,
  keys (filter (unmatched source) (pop k zh)) =
  filter (fun k' => negb (PyStr.eqb k k'))
    (keys (filter (unmatched source) zh)).
Proof.
  induction zh as [|[k' v'] zh IH]; intros source k; simpl; auto.
  destruct (PyStr.eqb k k') eqn:E.
  - destruct (unmatched source (k', v')); simpl; rewrite ?E; apply IH.
  - simpl. destruct (unmatched source (k', v')); simpl; rewrite ?E, IH; auto.
Qed.

End RepairFacts.

(** ** The reconciled document *)

Ltac solve_wf :=
  unfold wf; simpl; repeat constructor; simpl;
  intuition (try discriminate).

Lemma wf_scenario_source : wf scenario_source.
Proof. solve_wf. Defined.

Lemma wf_long_source : wf long_source.
Proof. solve_wf. Defined.

Lemma wf_truncated_entries : wf truncated_entries.
Proof. solve_wf. Defined.

(** C1 (key coverage): when the source file exists, [save_translation]
    returns, and the document it dumps has exactly the keys of the source:
    every key of the source is in it and it has no other key, whatever the
    entries are and whatever order the set of source keys is walked in. *)
Theorem save_translation_key_coverage :
  forall (V : Type) (zh_cn_dict source_json : dict V) (order : list pystr),
    wf source_json ->
    exists doc log,
      save_translation zh_cn_dict (Some source_json) order = Ok (doc, log) /\
      forall k, In k (keys doc) <-> In k (keys source_json).
Proof.
  intros V zh source order Hwf.
  destruct (save_translation_source zh order Hwf) as [c [l [_ H]]].
  exists (map (final_entry c) source), l. split; [exact H|].
  intro k. rewrite keys_final. tauto.
Qed.

Lemma save_translation_key_coverage_witness :
  wf long_source /\
  exists doc log,
    save_translation truncated_entries (Some long_source)
      (keys long_source) = Ok (doc, log) /\
    forall k, In k (keys doc) <-> In k (keys long_source).
Proof.
  split; [exact wf_long_source|].
  apply (@save_translation_key_coverage pystr truncated_entries long_source
           (keys long_source)).
  exact wf_long_source.
Defined.

(** C4 (order): with a source file the keys of the dumped document are the
    keys of the source in the same order; without one the document has the
    entries of [zh_cn_dict] with their keys in lexicographic order. *)
Theorem save_translation_order :
  forall (V : Type) (zh_cn_dict : dict V) (order : list pystr),
    wf zh_cn_dict ->
    (forall source_json, wf source_json ->
       exists doc log,
         save_translation zh_cn_dict (Some source_json) order
         = Ok (doc, log) /\
         keys doc = keys source_json) /\
    (exists doc log,
       save_translation zh_cn_dict None order = Ok (doc, log) /\
       Permutation (keys zh_cn_dict) (keys doc) /\
       StronglySorted (fun a b => PyStr.leb a b = true) (keys doc) /\
       forall k, get k doc = get k zh_cn_dict).
Proof.
  intros V zh order Hzh. split.
  - intros source Hwf.
    destruct (save_translation_source zh order Hwf) as [c [l [_ H]]].
    exists (map (final_entry c) source), l. split; [exact H|].
    apply keys_final.
  - destruct (save_translation_no_source order Hzh) as [doc [H [Hk Hg]]].
    exists doc, [MissingSource]. split; [exact H|]. rewrite Hk.
    split; [apply PySort.Permuted_sort|]. split; [|exact Hg].
    apply (PySort.StronglySorted_sort (keys zh) leb_transitive).
Qed.

Lemma save_translation_order_witness :
  wf truncated_entries /\
  (forall source_json, wf source_json ->
     exists doc log,
       save_translation truncated_entries (Some source_json) []
       = Ok (doc, log) /\
       keys doc = keys source_json) /\
  (exists doc log,
     save_translation truncated_entries None [] = Ok (doc, log) /\
     Permutation (keys truncated_entries) (keys doc) /\
     StronglySorted (fun a b => PyStr.leb a b = true) (keys doc) /\
     forall k, get k doc = get k truncated_entries).
Proof.
  split; [exact wf_truncated_entries|].
  apply (@save_translation_order pystr truncated_entries []).
  exact wf_truncated_entries.
Defined.

(** C3 (truncated keys): take an entry whose key is not a key of the
    source.  The function returns.  If the key has 255 characters and [sk]
    is the first source key, in the order the set is walked, that starts
    with it, the document holds the entry's value at [sk].  If the key has
    another length, or no source key starts with it, the warning for the key
    is printed and the document is the one obtained without the entry: the
    entry is bound to no source key. *)
Theorem save_translation_unmatched_key :
  forall (V : Type) (zh_cn_dict source_json : dict V) (order : list pystr)
         (pt_key : pystr) (pt_value : V),
    wf zh_cn_dict -> wf source_json ->
    Permutation order (keys source_json) ->
    get pt_key zh_cn_dict = Some pt_value ->
    mem pt_key source_json = false ->
    exists doc log,
      save_translation zh_cn_dict (Some source_json) order = Ok (doc, log) /\
      (forall sk,
         List.length pt_key = 255 ->
         find (startswith pt_key) order = Some sk ->
         get sk doc = Some pt_value) /\
      (List.length pt_key <> 255 \/ find (startswith pt_key) order = None ->
         In (warning pt_key) log /\
         exists log',
           save_translation (pop pt_key zh_cn_dict) (Some source_json) order
           = Ok (doc, log')).
Proof.
  intros V zh source order k v Hzh Hsrc Hperm Hget Hmem.
  destruct (save_translation_source zh order Hsrc) as [c [l [Hr H]]].
  exists (map (final_entry c) source), l. split; [exact H|].
  assert (Hin : In k (keys (filter (unmatched source) zh))).
  { apply unmatched_keys_In. split; auto. eapply get_Some_keys; eauto. }
  split.
  - intros sk Hlen Hf.
    assert (Hsk : In sk (keys source)).
    { apply find_some in Hf as [Hf _]. eapply Permutation_in; eauto. }
    apply keys_get_Some in Hsk as [o Ho].
    rewrite (get_final _ _ _ Ho). unfold get_default.
    erewrite repair_truncated_binds; eauto.
    apply NoDup_keys_filter, Hzh.
  - intro Hd. split.
    + eapply repair_truncated_warns; eauto.
    + destruct (repair_truncated_drop _ _ _ _ (@nil event) Hr Hd)
        as [l0 Hr0].
      destruct (save_translation_source (pop k zh) order Hsrc)
        as [c' [l' [Hr' H']]].
      rewrite filter_matched_pop, filter_unmatched_pop in Hr' by assumption.
      rewrite Hr0 in Hr'. inversion Hr'; subst. eauto.
Qed.

Lemma save_translation_unmatched_key_witness :
  wf truncated_entries /\ wf long_source /\
  Permutation (keys long_source) (keys long_source) /\
  get truncated_key truncated_entries = Some (py "translated") /\
  mem truncated_key long_source = false /\
  exists doc log,
    save_translation truncated_entries (Some long_source) (keys long_source)
    = Ok (doc, log) /\
    (forall sk,
       List.length truncated_key = 255 ->
       find (startswith truncated_key) (keys long_source) = Some sk ->
       get sk doc = Some (py "translated")) /\
    (List.length truncated_key <> 255 \/
     find (startswith truncated_key) (keys long_source) = None ->
       In (warning truncated_key) log /\
       exists log',
         save_translation (pop truncated_key truncated_entries)
           (Some long_source) (keys long_source) = Ok (doc, log')).
Proof.
  split; [exact wf_truncated_entries|].
  split; [exact wf_long_source|].
  split; [apply Permutation_refl|].
  split; [vm_compute; reflexivity|].
  split; [vm_compute; reflexivity|].
  apply (@save_translation_unmatched_key pystr truncated_entries long_source
           (keys long_source) truncated_key (py "translated")).
  - exact wf_truncated_entries.
  - exact wf_long_source.
  - apply Permutation_refl.
  - vm_compute; reflexivity.
  - vm_compute; reflexivity.
Defined.

(** ** Value selection and normalisation *)

Lemma uses_original_iff : forall item,
  uses_original item <->
  stage_uses_original (item_stage item) || falsy (item_translation item)
  = true.
Proof.
  intros [k o t s]. unfold uses_original, stage_uses_original. simpl.
  rewrite !orb_true_iff, !Z.eqb_eq. split.
  - intros [H|[H|[H|[H|H]]]]; subst; simpl; auto.
  - intros [[[H|H]|H]|H]; auto.
    destruct t as [[|c t]|]; simpl in H; auto. discriminate.
Qed.

(** C2 (value policy): in the answer of [translate], the value at the
    position of an entry is the entry's original text (empty when the field
    is missing) if its stage is 0, -1 or 2 or its translation is missing or
    empty, and it is the entry's translation in every other case. *)
Theorem translate_value_policy :
  forall (translations : list TranslationEntry) (i : nat)
         (item : TranslationEntry),
    nth_error translations i = Some item ->
    nth_error (fst (translate translations)) i = Some (item_key item) /\
    (uses_original item ->
     nth_error (snd (translate translations)) i
     = Some (text_or_empty (item_original item))) /\
    (~ uses_original item ->
     exists t, item_translation item = Some t /\
       nth_error (snd (translate translations)) i = Some t).
Proof.
  intros translations i item H. simpl.
  split; [now apply map_nth_error|].
  rewrite (map_nth_error resolved_value _ _ H). unfold resolved_value.
  split; intro Hu.
  - apply uses_original_iff in Hu. now rewrite Hu.
  - destruct (stage_uses_original (item_stage item)
              || falsy (item_translation item)) eqn:E.
    + apply uses_original_iff in E. contradiction.
    + destruct (item_translation item) as [t|] eqn:Et.
      * exists t. auto.
      * exfalso. apply Hu. unfold uses_original. rewrite Et. tauto.
Qed.

Lemma translate_value_policy_witness :
  nth_error scenario_entries 0
  = Some {| item_key := py "a"; item_original := Some (py "A");
            item_translation := Some [30002%N]; item_stage := 1 |} /\
  nth_error (snd (translate scenario_entries)) 0 = Some [30002%N].
Proof.
  split; [reflexivity|].
  destruct (@translate_value_policy scenario_entries 0 _ eq_refl)
    as [_ [_ H]].
  destruct H as [t [Et Hn]].
  - unfold uses_original. simpl.
    intros [H|[H|[H|[H|H]]]]; discriminate.
  - simpl in Et. injection Et as <-. exact Hn.
Defined.

(** The scenario of the specification, from the entries to the document. *)
Example scenario_end_to_end :
  save_translation
    (process_translation scenario_entries (Some scenario_source)
       (py "en_us.json"))
    (Some scenario_source) (keys scenario_source)
  = Ok ([(py "a", [30002%N]); (py "b", py "B")], []).
Proof. vm_compute. reflexivity. Qed.

Lemma is_cjk_backslash : forall c, N.eqb c backslash = true -> is_cjk c = false.
Proof. intros c H. apply N.eqb_eq in H. now subst. Qed.

Lemma is_cjk_letter_n : forall c, N.eqb c letter_n = true -> is_cjk c = false.
Proof. intros c H. apply N.eqb_eq in H. now subst. Qed.

(** Rules (a) and (b) neither add nor remove an ideograph. *)
Lemma has_cjk_sub_double_backslash : forall value,
  has_cjk (sub_double_backslash value) = has_cjk value.
Proof.
  assert (H : forall value,
             has_cjk (sub_double_backslash value) = has_cjk value /\
             forall c, has_cjk (sub_double_backslash (c :: value))
                       = has_cjk (c :: value)).
  { induction value as [|c' rest [IH1 IH2]].
    - split; [reflexivity | intro c; reflexivity].
    - split; [apply IH2|]. intro c.
      change (sub_double_backslash (c :: c' :: rest))
        with (if N.eqb c backslash && N.eqb c' backslash
              then backslash :: sub_double_backslash rest
              else c :: sub_double_backslash (c' :: rest)).
      destruct (N.eqb c backslash && N.eqb c' backslash) eqn:E.
      + apply andb_true_iff in E as [E1 E2].
        change (has_cjk (c :: c' :: rest))
          with (is_cjk c || (is_cjk c' || has_cjk rest)).
        rewrite (is_cjk_backslash _ E1), (is_cjk_backslash _ E2).
        simpl. apply IH1.
      + change (is_cjk c || has_cjk (sub_double_backslash (c' :: rest))
                = is_cjk c || has_cjk (c' :: rest)).
        now rewrite IH2. }
  intro value. apply H.
Qed.

Lemma has_cjk_sub_backslash_n : forall value,
  has_cjk (sub_backslash_n value) = has_cjk value.
Proof.
  assert (H : forall value,
             has_cjk (sub_backslash_n value) = has_cjk value /\
             forall c, has_cjk (sub_backslash_n (c :: value))
                       = has_cjk (c :: value)).
  { induction value as [|c' rest [IH1 IH2]].
    - split; [reflexivity | intro c; reflexivity].
    - split; [apply IH2|]. intro c.
      change (sub_backslash_n (c :: c' :: rest))
        with (if N.eqb c backslash && N.eqb c' letter_n
              then newline :: sub_backslash_n rest
              else c :: sub_backslash_n (c' :: rest)).
      destruct (N.eqb c backslash && N.eqb c' letter_n) eqn:E.
      + apply andb_true_iff in E as [E1 E2].
        change (has_cjk (c :: c' :: rest))
          with (is_cjk c || (is_cjk c' || has_cjk rest)).
        rewrite (is_cjk_backslash _ E1), (is_cjk_letter_n _ E2).
        simpl. apply IH1.
      + change (is_cjk c || has_cjk (sub_backslash_n (c' :: rest))
                = is_cjk c || has_cjk (c' :: rest)).
        now rewrite IH2. }
  intro value. apply H.
Qed.

Lemma has_cjk_unescaped : forall value,
  has_cjk (unescaped value) = has_cjk value.
Proof.
  intro value. unfold unescaped.
  now rewrite has_cjk_sub_backslash_n, has_cjk_sub_double_backslash.
Qed.

Lemma sub_space_map : forall value,
  sub_space value = map space_to_nbsp value.
Proof.
  unfold sub_space, space_to_nbsp.
  induction value as [|c value IH]; simpl; auto.
  rewrite IH. now destruct (N.eqb c space).
Qed.

Lemma sub_space_no_space : forall value, ~ In space (sub_space value).
Proof.
  intro value. rewrite sub_space_map. intro H.
  apply in_map_iff in H as [c [H _]]. unfold space_to_nbsp in H.
  destruct (N.eqb c space) eqn:E; [discriminate|].
  apply N.eqb_neq in E. contradiction.
Qed.

(** C8 (spaces in Chinese text): a value with at least one character in
    U+4E00..U+9FFF comes out of the normalisation with each of its spaces
    replaced by U+00A0 and no space left; a value with no such character is
    not changed by that rule.  The two values of the specification behave
    so. *)
Theorem normalize_cjk_spaces :
  forall value : pystr,
    (has_cjk value = true ->
     normalize value = map space_to_nbsp (unescaped value) /\
     ~ In space (normalize value)) /\
    (has_cjk value = false -> normalize value = unescaped value) /\
    normalize hello_world_zh = [20320; 22909; nbsp; 19990; 30028]%N /\
    normalize (py "hello world") = py "hello world".
Proof.
  intro value.
  assert (E : normalize value =
              if has_cjk value then sub_space (unescaped value)
              else unescaped value).
  { unfold normalize. fold (unescaped value).
    now rewrite has_cjk_unescaped. }
  repeat split.
  - rewrite E, H. apply sub_space_map.
  - rewrite E, H. apply sub_space_no_space.
  - intro H. now rewrite E, H.
Qed.

Lemma normalize_cjk_spaces_witness :
  has_cjk hello_world_zh = true /\
  normalize hello_world_zh = map space_to_nbsp (unescaped hello_world_zh) /\
  ~ In space (normalize hello_world_zh).
Proof.
  split; [reflexivity|].
  apply (proj1 (normalize_cjk_spaces hello_world_zh)). reflexivity.
Defined.

(** ** Aggregation of quest descriptions *)

Lemma split_not_nil : forall sep s, PyStr.split sep s <> [].
Proof.
  intros sep [|c s]; simpl; [discriminate|].
  destruct (N.eqb c sep); [discriminate|].
  destruct (PyStr.split sep s); discriminate.
Qed.

(** Up to the first separator, [split] returns what precedes it. *)
Lemma split_app : forall sep a rest,
  ~ In sep a ->
  PyStr.split sep (a ++ sep :: rest) = a :: PyStr.split sep rest.
Proof.
  induction a as [|c a IH]; intros rest H; simpl.
  - now rewrite N.eqb_refl.
  - destruct (N.eqb c sep) eqn:E.
    + apply N.eqb_eq in E. subst. simpl in H. tauto.
    + rewrite IH by (simpl in H; tauto). reflexivity.
Qed.

Lemma split_no_sep : forall sep s, ~ In sep s -> PyStr.split sep s = [s].
Proof.
  induction s as [|c s IH]; intro H; simpl; auto.
  destruct (N.eqb c sep) eqn:E.
  - apply N.eqb_eq in E. subst. simpl in H. tauto.
  - rewrite IH by (simpl in H; tauto). reflexivity.
Qed.

(** [key.split(".")[1]] exists exactly when the key has a dot. *)
Lemma split_second_segment : forall key,
  In dot key <-> exists key_id, nth_error (PyStr.split dot key) 1 = Some key_id.
Proof.
  intro key. split.
  - intro H. apply in_split in H as [a [rest ->]].
    assert (Ha : exists a1 a2, a ++ dot :: rest = a1 ++ dot :: a2
                               /\ ~ In dot a1).
    { clear. induction a as [|c a [a1 [a2 [E Hn]]]].
      - exists [], rest. auto.
      - destruct (N.eq_dec c dot) as [->|Hc].
        + exists [], (a ++ dot :: rest). auto.
        + exists (c :: a1), a2. simpl. rewrite E. split; auto.
          intros [H|H]; auto. }
    destruct Ha as [a1 [a2 [-> Hn]]]. rewrite split_app by assumption.
    simpl. destruct (PyStr.split dot a2) as [|seg segs] eqn:E.
    + now apply split_not_nil in E.
    + now exists seg.
  - intros [key_id H].
    destruct (in_dec N.eq_dec dot key) as [i|n]; auto.
    rewrite split_no_sep in H by assumption. discriminate.
Qed.

Lemma quest_desc_values_total : forall ks pattern (en_json : dict json),
  (forall k, In k ks -> In k (keys en_json)) ->
  exists l, quest_desc_values ks pattern en_json = Ok l.
Proof.
  induction ks as [|k ks IH]; intros pattern en_json H; simpl.
  - eauto.
  - destruct (IH pattern en_json) as [l Hl]; [intros; apply H; now right|].
    destruct (contains pattern k); [|eauto].
    destruct (getitem_keys en_json k) as [v [-> _]]; [apply H; now left|].
    rewrite Hl. simpl. eauto.
Qed.

Lemma quest_desc_values_app : forall d2 d1 pattern,
  wf (d1 ++ d2) ->
  quest_desc_values (keys d2) pattern (d1 ++ d2) =
  Ok (map snd (filter (key_contains pattern) d2)).
Proof.
  induction d2 as [|[k v] d2 IH]; intros d1 pattern Hwf; simpl; auto.
  unfold key_contains at 1. simpl.
  replace (d1 ++ (k, v) :: d2) with ((d1 ++ [(k, v)]) ++ d2) in *
    by now rewrite <- app_assoc.
  rewrite IH by assumption.
  destruct (contains pattern k); simpl; auto.
  unfold getitem. rewrite !get_app.
  assert (Hk : get k d1 = None).
  { apply get_None_keys. unfold wf, keys in Hwf.
    rewrite !map_app in Hwf. simpl in Hwf. rewrite <- app_assoc in Hwf.
    apply NoDup_remove_2 in Hwf. intro Hin. apply Hwf.
    apply in_or_app. now left. }
  rewrite Hk. simpl. now rewrite eqb_refl.
Qed.

(** The inner loop collects, in the order of the document, the values of
    the keys that contain the pattern as a substring. *)
Lemma quest_desc_values_filter : forall (d : dict json) pattern,
  wf d ->
  quest_desc_values (keys d) pattern d =
  Ok (map snd (filter (key_contains pattern) d)).
Proof.
  intros d pattern H. apply (quest_desc_values_app d [] pattern H).
Qed.

Lemma collect_desc_total : forall items en_json temp_set temp_en_json,
  desc_keys_have_dot items ->
  exists r, collect_desc items en_json temp_set temp_en_json = Ok r.
Proof.
  induction items as [|[key value] items IH];
    intros en_json temp_set temp_en_json H; cbn [collect_desc].
  - eauto.
  - assert (Hi : desc_keys_have_dot items).
    { intros k Hk. apply H. now right. }
    destruct (contains (py "desc") key) eqn:E; [|now apply IH].
    assert (Hd : In dot key) by (apply H; auto; now left).
    apply split_second_segment in Hd as [key_id ->].
    destruct (quest_desc_values_total (keys en_json)
                (key_id ++ py ".quest_desc") en_json) as [l ->]; auto.
    cbn [bind]. now apply IH.
Qed.

Lemma keys_wrap : forall (doc : dict pystr),
  keys (map (fun kv => (fst kv, JStr (snd kv))) doc) = keys doc.
Proof. intro doc. unfold keys. now rewrite map_map. Qed.

(** Under its precondition the function returns. *)
Lemma normal_json2_ftb_desc_total : forall doc : dict pystr,
  desc_keys_have_dot doc ->
  exists r, normal_json2_ftb_desc doc = Ok r.
Proof.
  intros doc H. unfold normal_json2_ftb_desc.
  set (en_json := map (fun kv => (fst kv, JStr (snd kv))) doc).
  destruct (@collect_desc_total en_json en_json [] []) as [r ->].
  - intros k Hk. apply H. unfold en_json in Hk. now rewrite keys_wrap in Hk.
  - simpl. eauto.
Qed.

(** Removing the keys of [temp_set] gives the same dictionary in whatever
    order the set is walked. *)
Lemma pop_all_order : forall l l' (d : dict json),
  Permutation l l' -> pop_all l d = pop_all l' d.
Proof.
  intros l l' d H. revert d. unfold pop_all.
  induction H; intro d; simpl; auto.
  - now rewrite pop_comm.
  - now rewrite IHPermutation1.
Qed.

Lemma wf_pop_all : forall l (d : dict json), wf d -> wf (pop_all l d).
Proof.
  unfold pop_all. induction l as [|k l IH]; intros d H; simpl; auto.
  apply IH. now apply wf_pop.
Qed.

(** The result is a dictionary: no key occurs twice in it. *)
Lemma normal_json2_ftb_desc_wf : forall (doc : dict pystr) r,
  wf doc -> normal_json2_ftb_desc doc = Ok r -> wf r.
Proof.
  intros doc r Hwf H. unfold normal_json2_ftb_desc in H.
  destruct (collect_desc _ _ _ _) as [[ts te]|]; simpl in H; [|discriminate].
  inversion H; subst. apply wf_update, wf_pop_all.
  unfold wf. now rewrite keys_wrap.
Qed.

(** C5 (one key per quest): for the document with [quest.1.desc],
    [quest.1.quest_desc.0] = A and [quest.1.quest_desc.1] = B the result is
    the single key [quest.1.quest_desc] bound to the list A, B, and
    [quest.1.desc] is not a key of it.  For every document whose keys that
    contain [desc] have a dot, the function returns a dictionary in which
    the key built for a quest identifier occurs at most once. *)
Theorem normal_json2_ftb_desc_one_key_per_quest :
  (forall desc,
     normal_json2_ftb_desc (quest_doc desc)
     = Ok [(py "quest.1.quest_desc", JList [JStr (py "A"); JStr (py "B")])])
  /\
  (forall desc r,
     normal_json2_ftb_desc (quest_doc desc) = Ok r ->
     get (py "quest.1.desc") r = None) /\
  (forall doc : dict pystr,
     wf doc -> desc_keys_have_dot doc ->
     exists r,
       normal_json2_ftb_desc doc = Ok r /\
       forall key_id,
         (count_occ pystr_eq_dec (keys r)
            (py "quest." ++ key_id ++ py ".quest_desc") <= 1)%nat).
Proof.
  split; [|split].
  - intro desc. vm_compute. reflexivity.
  - intros desc r H. vm_compute in H. inversion H; subst. reflexivity.
  - intros doc Hwf Hdot.
    destruct (normal_json2_ftb_desc_total Hdot) as [r Hr].
    exists r. split; [exact Hr|]. intro key_id.
    apply NoDup_count_occ. exact (normal_json2_ftb_desc_wf Hwf Hr).
Qed.

Lemma quest_doc_keys_have_dot : forall desc,
  desc_keys_have_dot (quest_doc desc).
Proof.
  intros desc k [<-|[<-|[<-|[]]]] _; vm_compute; tauto.
Defined.

Lemma normal_json2_ftb_desc_one_key_per_quest_witness :
  wf (quest_doc (py "D")) /\ desc_keys_have_dot (quest_doc (py "D")) /\
  exists r,
    normal_json2_ftb_desc (quest_doc (py "D")) = Ok r /\
    forall key_id,
      (count_occ pystr_eq_dec (keys r)
         (py "quest." ++ key_id ++ py ".quest_desc") <= 1)%nat.
Proof.
  assert (Hwf : wf (quest_doc (py "D"))) by solve_wf.
  split; [exact Hwf|].
  split; [apply quest_doc_keys_have_dot|].
  apply (proj2 (proj2 normal_json2_ftb_desc_one_key_per_quest)
           (quest_doc (py "D")) Hwf (@quest_doc_keys_have_dot (py "D"))).
Defined.

(** C9 (substring match): the inner loop keeps the values of the keys that
    contain [<id>.quest_desc] as a substring, wherever it occurs in the
    key.  With the identifiers 1 and 11 in one document, the list built for
    [quest.1.quest_desc] also holds the value of [quest.11.quest_desc.0],
    because [1.quest_desc] is a substring of that key. *)
Theorem quest_desc_collects_by_substring :
  (forall (en_json : dict json) (pattern : pystr),
     wf en_json ->
     quest_desc_values (keys en_json) pattern en_json =
     Ok (map snd (filter (key_contains pattern) en_json))) /\
  contains (py "1.quest_desc") (py "quest.11.quest_desc.0") = true /\
  (forall desc x y,
     normal_json2_ftb_desc (overlapping_doc desc x y) =
     Ok [(py "quest.1.quest_desc", JList [JStr x; JStr y]);
         (py "quest.11.quest_desc", JList [JStr y])]).
Proof.
  split; [exact quest_desc_values_filter|].
  split; [reflexivity|].
  intros desc x y. vm_compute. reflexivity.
Qed.

Lemma quest_desc_collects_by_substring_witness :
  wf [(py "quest.11.quest_desc.0", JStr (py "Y"))] /\
  quest_desc_values [py "quest.11.quest_desc.0"] (py "1.quest_desc")
    [(py "quest.11.quest_desc.0", JStr (py "Y"))]
  = Ok [JStr (py "Y")].
Proof.
  assert (Hwf : wf [(py "quest.11.quest_desc.0", JStr (py "Y"))])
    by solve_wf.
  split; [exact Hwf|].
  exact (proj1 quest_desc_collects_by_substring
           [(py "quest.11.quest_desc.0", JStr (py "Y"))]
           (py "1.quest_desc") Hwf).
Defined.

(** A key that contains [desc] and has no dot stops the first loop. *)
Lemma collect_desc_index_error :
  forall items en_json temp_set temp_en_json,
    (exists k, In k (keys items) /\ contains (py "desc") k = true /\
               ~ In dot k) ->
    collect_desc items en_json temp_set temp_en_json = Raise IndexError.
Proof.
  induction items as [|[key value] items IH];
    intros en_json temp_set temp_en_json [k [Hin [Hc Hd]]];
    cbn [collect_desc]; [contradiction|].
  assert (Hrest : key <> k ->
            exists k, In k (keys items) /\ contains (py "desc") k = true /\
                      ~ In dot k).
  { intro Hne. exists k. destruct Hin as [E|Hin]; [contradiction|auto]. }
  destruct (contains (py "desc") key) eqn:E.
  - destruct (nth_error (PyStr.split dot key) 1) as [key_id|] eqn:En; auto.
    assert (Hdot : In dot key) by (apply split_second_segment; eauto).
    destruct (quest_desc_values_total (keys en_json)
                (key_id ++ py ".quest_desc") en_json) as [l ->]; auto.
    cbn [bind]. apply IH, Hrest. congruence.
  - apply IH, Hrest. congruence.
Qed.

(** Whether the precondition holds can be decided key by key. *)
Lemma desc_keys_have_dot_dec : forall (V : Type) (doc : dict V),
  desc_keys_have_dot doc \/
  exists k, In k (keys doc) /\ contains (py "desc") k = true /\ ~ In dot k.
Proof.
  induction doc as [|[key value] doc [IH|[k [Hk Hb]]]].
  - left. intros k [].
  - destruct (contains (py "desc") key) eqn:E.
    + destruct (in_dec N.eq_dec dot key) as [i|n].
      * left. intros k [<-|Hk] Hc; simpl; auto.
      * right. exists key. split; [now left | auto].
    + left. intros k [<-|Hk] Hc; simpl in *; [congruence | auto].
  - right. exists k. split; [now right | exact Hb].
Qed.

(** C10 (second segment): [key.split(".")[1]] is in bounds exactly when the
    key has a dot.  If every key that contains [desc] has a dot, the
    function returns; if some key that contains [desc] has none, as the key
    [desc] itself, it raises [IndexError]. *)
Theorem normal_json2_ftb_desc_needs_dots :
  (forall key,
     In dot key <->
     exists key_id, nth_error (PyStr.split dot key) 1 = Some key_id) /\
  (forall doc : dict pystr,
     desc_keys_have_dot doc ->
     exists r, normal_json2_ftb_desc doc = Ok r) /\
  (forall doc : dict pystr,
     ~ desc_keys_have_dot doc ->
     normal_json2_ftb_desc doc = Raise IndexError) /\
  (forall value, normal_json2_ftb_desc [(py "desc", value)] = Raise IndexError).
Proof.
  split; [exact split_second_segment|].
  split; [exact normal_json2_ftb_desc_total|].
  split.
  - intros doc H. unfold normal_json2_ftb_desc.
    rewrite collect_desc_index_error; [reflexivity|].
    rewrite keys_wrap.
    destruct (desc_keys_have_dot_dec doc) as [Hd|Hex]; [contradiction|].
    exact Hex.
  - intro value. vm_compute. reflexivity.
Qed.

Lemma normal_json2_ftb_desc_needs_dots_witness :
  desc_keys_have_dot (quest_doc (py "D")) /\
  exists r, normal_json2_ftb_desc (quest_doc (py "D")) = Ok r.
Proof.
  split; [apply quest_doc_keys_have_dot|].
  apply (proj1 (proj2 normal_json2_ftb_desc_needs_dots)
           (quest_doc (py "D")) (@quest_doc_keys_have_dot (py "D"))).
Defined.

(** ** Building and rendering the tree *)

Section ComprehensionFacts.

Variables A B : Type.
Variable f : A -> result B.

Lemma mapM_ok : forall l,
  Forall (fun a => exists b, f a = Ok b) l -> exists l', mapM f l = Ok l'.
Proof.
  induction 1 as [|a l [b Hb] _ [l' Hl']]; simpl.
  - eauto.
  - rewrite Hb, Hl'. simpl. eauto.
Qed.

Lemma mapM_raise : forall e l,
  Forall (fun a => (exists b, f a = Ok b) \/ f a = Raise e) l ->
  Exists (fun a => f a = Raise e) l ->
  mapM f l = Raise e.
Proof.
  intros e l HF HE. induction HF as [|a l [[b Hb]|Ha] HF IH]; simpl.
  - inversion HE.
  - rewrite Hb. simpl. rewrite IH; [reflexivity|].
    inversion HE; subst; [congruence | assumption].
  - now rewrite Ha.
Qed.

Lemma mapM_Forall2 : forall l l',
  mapM f l = Ok l' -> Forall2 (fun a b => f a = Ok b) l l'.
Proof.
  induction l as [|a l IH]; intros l' H; simpl in H.
  - inversion H; subst. constructor.
  - destruct (f a) as [b|] eqn:Ea; simpl in H; [|discriminate].
    destruct (mapM f l) as [r|]; simpl in H; [|discriminate].
    inversion H; subst. constructor; auto.
Qed.

Lemma mapM_raise_In : forall l e,
  mapM f l = Raise e -> exists a, In a l /\ f a = Raise e.
Proof.
  induction l as [|a l IH]; intros e H; simpl in H; [discriminate|].
  destruct (f a) as [b|e'] eqn:Ea; simpl in H.
  - destruct (mapM f l) as [r|e''] eqn:El; simpl in H; [discriminate|].
    inversion H; subst. destruct (IH e eq_refl) as [a' [Hin Ha']].
    exists a'. split; [now right | exact Ha'].
  - inversion H; subst. exists a. split; [now left | exact Ea].
Qed.

End ComprehensionFacts.

Lemma forallb_false : forall (A : Type) (f : A -> bool) (l : list A),
  forallb f l = false -> exists a, In a l /\ f a = false.
Proof.
  induction l as [|a l IH]; simpl; intro H; [discriminate|].
  destruct (f a) eqn:E.
  - destruct (IH H) as [a' [Hin Ha']]. exists a'. auto.
  - exists a. auto.
Qed.

(** [List[String]] keeps a list of string tags and refuses any other. *)
Lemma new_List_String_outcome : forall items,
  (forallb is_String items = true ->
   nbtlib.new_List_String items = Ok (nbtlib.List items)) /\
  (forallb is_String items = false ->
   nbtlib.new_List_String items = Raise IncompatibleItemType).
Proof.
  unfold nbtlib.new_List_String.
  induction items as [|item items [IHok IHbad]]; simpl.
  - split; [reflexivity | discriminate].
  - destruct item as [d | l | s | n]; simpl;
      try (split; [discriminate | reflexivity]).
    split; intro H.
    + specialize (IHok H).
      destruct (mapM nbtlib.cast_item items); simpl in *; congruence.
    + specialize (IHbad H).
      destruct (mapM nbtlib.cast_item items); simpl in *; congruence.
Qed.

Lemma new_List_String_raise : forall items e,
  nbtlib.new_List_String items = Raise e -> e = IncompatibleItemType.
Proof.
  intros items e H.
  destruct (forallb is_String items) eqn:E.
  - rewrite (proj1 (new_List_String_outcome items) E) in H. discriminate.
  - rewrite (proj2 (new_List_String_outcome items) E) in H. congruence.
Qed.

(** Only a string builds a string tag. *)
Lemma json_to_nbt_is_String : forall data t,
  json_to_nbt data = Ok t -> is_String t = is_str data.
Proof.
  intros [| b | n | m e | s | l | d] t H; cbn [json_to_nbt] in H;
    try discriminate.
  - unfold nbtlib.new_Int in H.
    destruct (nbtlib.in_int32 _); inversion H; reflexivity.
  - unfold nbtlib.new_Int in H.
    destruct (nbtlib.in_int32 _); inversion H; reflexivity.
  - inversion H; reflexivity.
  - destruct (mapM json_to_nbt l) as [items|]; cbn [bind] in H;
      [|discriminate].
    destruct (forallb is_String items) eqn:E.
    + rewrite (proj1 (new_List_String_outcome items) E) in H.
      inversion H; reflexivity.
    + rewrite (proj2 (new_List_String_outcome items) E) in H. discriminate.
  - destruct (mapM _ d) as [d'|]; cbn [bind] in H; [|discriminate].
    inversion H; reflexivity.
Qed.

Lemma Forall2_In_left :
  forall (A B : Type) (R : A -> B -> Prop) l l' a,
    Forall2 R l l' -> In a l -> exists b, In b l' /\ R a b.
Proof.
  intros A B R l l' a H. induction H as [|x y l l' Hxy _ IH]; intro Hin.
  - contradiction.
  - destruct Hin as [<-|Hin].
    + exists y. split; [now left | exact Hxy].
    + destruct (IH Hin) as [b [Hb Hab]]. exists b. split; [now right | auto].
Qed.

Lemma forallb_Forall2 :
  forall (A B : Type) (f : A -> bool) (g : B -> bool) (R : A -> B -> Prop)
         l l',
    Forall2 R l l' -> (forall a b, R a b -> g b = f a) ->
    forallb g l' = forallb f l.
Proof.
  intros A B f g R l l' H Hfg. induction H as [|a b l l' Hab _ IH]; simpl.
  - reflexivity.
  - now rewrite (Hfg a b Hab), IH.
Qed.

(** [json_to_nbt] returns a tree exactly on the buildable values, and
    raises one of its three exceptions on the others. *)
Lemma json_to_nbt_buildable : forall data,
  (buildable data = true -> exists t, json_to_nbt data = Ok t) /\
  (buildable data = false ->
   exists e, json_to_nbt data = Raise e /\ build_error e).
Proof.
  unfold build_error.
  induction data as [| b | n | m e | s | l IH | d IH] using json_ind.
  - split; [discriminate | intros _; exists ValueError; auto].
  - split; [|discriminate]. intros _.
    destruct b; [exists (nbtlib.Int 1) | exists (nbtlib.Int 0)]; reflexivity.
  - cbn [buildable json_to_nbt]. unfold nbtlib.new_Int.
    destruct (nbtlib.in_int32 n); split; try discriminate; eauto.
  - split; [discriminate | intros _; exists ValueError; auto].
  - split; [simpl; eauto | discriminate].
  - cbn [buildable json_to_nbt]. rewrite Forall_forall in IH.
    destruct (mapM json_to_nbt l) as [items|e] eqn:Em; cbn [bind].
    + assert (Hs : forallb is_String items = forallb is_str l).
      { eapply forallb_Forall2; [apply mapM_Forall2; exact Em|].
        intros a t. apply json_to_nbt_is_String. }
      split; intro H; rewrite <- Hs in H.
      * rewrite (proj1 (new_List_String_outcome items) H). eauto.
      * rewrite (proj2 (new_List_String_outcome items) H). eauto.
    + destruct (mapM_raise_In _ _ Em) as [a [Hin Ha]].
      assert (Hb : buildable a = false).
      { destruct (buildable a) eqn:E; [|reflexivity].
        destruct (proj1 (IH a Hin) E) as [t Ht]. congruence. }
      destruct (proj2 (IH a Hin) Hb) as [e' [He' Hbe]].
      assert (e = e') by congruence. subst e'.
      split; intro H.
      * rewrite forallb_forall in H. specialize (H a Hin).
        destruct a; simpl in *; discriminate.
      * eauto.
  - cbn [buildable json_to_nbt]. rewrite Forall_forall in IH.
    destruct (mapM _ d) as [d'|e] eqn:Em; cbn [bind].
    + split; intro H; [eauto|].
      exfalso. destruct (forallb_false _ _ H) as [kv [Hin Hkv]].
      destruct (proj2 (IH kv Hin) Hkv) as [e [He _]].
      apply mapM_Forall2 in Em.
      destruct (@Forall2_In_left _ _ _ _ _ kv Em Hin) as [kv' [_ Hkv']].
      cbn beta in Hkv'.
      rewrite He in Hkv'. discriminate.
    + destruct (mapM_raise_In _ _ Em) as [kv [Hin Hkv]].
      destruct (json_to_nbt (snd kv)) as [t|e'] eqn:Ej;
        cbn [bind] in Hkv; [discriminate|].
      inversion Hkv; subst e'.
      assert (Hb : buildable (snd kv) = false).
      { destruct (buildable (snd kv)) eqn:E; [|reflexivity].
        destruct (proj1 (IH kv Hin) E) as [t Ht]. congruence. }
      destruct (proj2 (IH kv Hin) Hb) as [e' [He' Hbe]].
      assert (e = e') by congruence. subst e'.
      split; intro H.
      * rewrite forallb_forall in H. specialize (H kv Hin). congruence.
      * eauto.
Qed.

(** [ValueError] comes from a float or a null only. *)
Lemma json_to_nbt_ValueError : forall data,
  json_to_nbt data = Raise ValueError -> has_float_or_null data = true.
Proof.
  induction data as [| b | n | m e | s | l IH | d IH] using json_ind;
    cbn [json_to_nbt has_float_or_null]; intro H; try reflexivity;
    try discriminate.
  - unfold nbtlib.new_Int in H. destruct b; simpl in H; discriminate.
  - unfold nbtlib.new_Int in H.
    destruct (nbtlib.in_int32 n); discriminate.
  - rewrite Forall_forall in IH.
    destruct (mapM json_to_nbt l) as [items|e] eqn:Em; cbn [bind] in H.
    + apply new_List_String_raise in H. discriminate.
    + inversion H; subst e.
      destruct (mapM_raise_In _ _ Em) as [a [Hin Ha]].
      apply existsb_exists. exists a. split; [exact Hin | now apply IH].
  - rewrite Forall_forall in IH.
    destruct (mapM _ d) as [d'|e] eqn:Em; cbn [bind] in H; [discriminate|].
    inversion H; subst e.
    destruct (mapM_raise_In _ _ Em) as [kv [Hin Hkv]].
    destruct (json_to_nbt (snd kv)) as [t|e'] eqn:Ej;
      cbn [bind] in Hkv; [discriminate|].
    inversion Hkv; subst e'.
    apply existsb_exists. exists kv. split; [exact Hin | now apply IH].
Qed.

(** C6, as the specification states it, fails on a boolean: [True] is an
    instance of [int], so the builder returns an integer tag for it. *)
Lemma json_to_nbt_accepts_bool :
  json_to_nbt (JBool true) = Ok (nbtlib.Int 1) /\
  json_to_nbt (JBool true) <> Raise ValueError.
Proof. split; [reflexivity | discriminate]. Qed.

(** C6 (supported kinds), amended: [json_to_nbt] returns a tree exactly
    for the values made of strings, integers within 32 bits, booleans (as
    the integer tag 1 or 0), sequences of strings, and mappings of such
    values.  For any other value it raises [ValueError], [OutOfRange] or
    [IncompatibleItemType].  It raises [ValueError] on a float and on a
    null, and on no value without a float or a null in it; an integer
    beyond 32 bits raises [OutOfRange]; a sequence whose elements all
    build but are not all strings raises [IncompatibleItemType]. *)
Theorem json_to_nbt_supported_kinds :
  (forall data, buildable data = true -> exists t, json_to_nbt data = Ok t) /\
  (forall data, buildable data = false ->
     exists e, json_to_nbt data = Raise e /\ build_error e) /\
  (forall data, json_to_nbt data = Raise ValueError ->
     has_float_or_null data = true) /\
  (forall m e, json_to_nbt (JFloat m e) = Raise ValueError) /\
  json_to_nbt JNull = Raise ValueError /\
  (forall b, json_to_nbt (JBool b)
             = Ok (nbtlib.Int (if b then 1 else 0)%Z)) /\
  (forall n, (- 2 ^ 31 <= n < 2 ^ 31)%Z ->
     json_to_nbt (JInt n) = Ok (nbtlib.Int n)) /\
  (forall n, (n < - 2 ^ 31 \/ 2 ^ 31 <= n)%Z ->
     json_to_nbt (JInt n) = Raise OutOfRange) /\
  (forall s, json_to_nbt (JStr s) = Ok (nbtlib.String s)) /\
  (forall l, forallb buildable l = true -> forallb is_str l = false ->
     json_to_nbt (JList l) = Raise IncompatibleItemType).
Proof.
  split; [intros data; apply json_to_nbt_buildable|].
  split; [intros data; apply json_to_nbt_buildable|].
  split; [exact json_to_nbt_ValueError|].
  do 2 (split; [reflexivity|]).
  split; [intros []; reflexivity|].
  split.
  { intros n Hn. cbn [json_to_nbt]. unfold nbtlib.new_Int, nbtlib.in_int32.
    destruct (Z.leb_spec (- 2 ^ 31) n); [|lia].
    destruct (Z.ltb_spec n (2 ^ 31)); [reflexivity | lia]. }
  split.
  { intros n Hn. cbn [json_to_nbt]. unfold nbtlib.new_Int, nbtlib.in_int32.
    destruct (Z.leb_spec (- 2 ^ 31) n); [|reflexivity].
    destruct (Z.ltb_spec n (2 ^ 31)); [lia | reflexivity]. }
  split; [reflexivity|].
  intros l Hb Hs. cbn [json_to_nbt].
  destruct (mapM_ok json_to_nbt (l := l)) as [items Hm].
  { rewrite forallb_forall in Hb. apply Forall_forall. intros a Hin.
    apply json_to_nbt_buildable, Hb, Hin. }
  rewrite Hm. cbn [bind].
  apply new_List_String_outcome.
  rewrite <- Hs. eapply forallb_Forall2; [apply mapM_Forall2; exact Hm|].
  intros a t. apply json_to_nbt_is_String.
Qed.

Lemma json_to_nbt_supported_kinds_witness :
  buildable sample_json = true /\
  exists t, json_to_nbt sample_json = Ok t.
Proof.
  split; [reflexivity|].
  apply (proj1 json_to_nbt_supported_kinds sample_json). reflexivity.
Defined.



(** ** The pieces together *)

Section StoreFacts.

Variables (A V : Type) (g : A -> V).

Let store (d : dict V) (kv : pystr * A) : dict V :=
  set (fst kv) (g (snd kv)) d.

Lemma fold_store_get_other : forall kvs d k,
  ~ In k (map fst kvs) -> get k (fold_left store kvs d) = get k d.
Proof.
  induction kvs as [|[k' a] kvs IH]; intros d k H; simpl in *; auto.
  rewrite IH by tauto. unfold store. simpl.
  apply get_set_other. intros ->. tauto.
Qed.

Lemma fold_store_get_in : forall kvs d k a,
  NoDup (map fst kvs) -> In (k, a) kvs ->
  get k (fold_left store kvs d) = Some (g a).
Proof.
  induction kvs as [|[k' a'] kvs IH]; intros d k a Hnd Hin; simpl in *;
    [contradiction|].
  inversion Hnd as [|? ? Hk Hnd']; subst.
  destruct Hin as [E|Hin].
  - injection E as -> ->. rewrite fold_store_get_other by assumption.
    unfold store. simpl. apply get_set_same.
  - now apply IH.
Qed.

End StoreFacts.

Lemma combine_map : forall (A B C : Type) (f : A -> B) (g : A -> C) l,
  combine (map f l) (map g l) = map (fun a => (f a, g a)) l.
Proof.
  induction l as [|a l IH]; simpl; [reflexivity | now rewrite IH].
Qed.

(** For a file whose name does not contain [ftbquest], the value stored
    for an entry is its resolved value after normalisation. *)
Lemma process_translation_normalizes :
  forall translations local_source path_name item,
    contains (py "ftbquest") path_name = false ->
    NoDup (map item_key translations) ->
    In item translations ->
    get (item_key item)
      (process_translation translations local_source path_name)
    = Some (normalize (resolved_value item)).
Proof.
  intros translations local_source path_name item Hp Hnd Hin.
  unfold process_translation, translate. rewrite Hp, combine_map.
  apply (fold_store_get_in normalize).
  - now rewrite map_map.
  - apply in_map_iff. now exists item.
Qed.

(** A truncated key is repaired and a stray key is dropped with its
    warning. *)
Example truncated_key_repaired :
  save_translation truncated_entries (Some long_source) (keys long_source)
  = Ok ([(py "title", py "Title");
         (truncated_key ++ py ".tail", py "translated")],
        [warning (py "stray")]).
Proof. vm_compute. reflexivity. Qed.

(** [escape_quotes] puts a backslash before each double quote. *)
Example escape_quotes_example :
  escape_quotes (JDict [(py "k", JStr (py "say " ++ quoted (py "hi")))])
  = JDict [(py "k",
            JStr (py "say " ++ [backslash; dquote] ++ py "hi"
                  ++ [backslash; dquote]))].
Proof. reflexivity. Qed.

(** The quest document of the example, from aggregation to text. *)
Example quest_doc_snbt :
  (r <- normal_json2_ftb_desc (quest_doc (py "D")) ;;
   t <- json_to_nbt (escape_quotes (JDict r)) ;;
   Ok (format_snbt t 0))
  = Ok (py "{" ++ [newline]
        ++ py "    quest.1.quest_desc:[" ++ [newline]
        ++ py "        " ++ quoted (py "A") ++ [newline]
        ++ py "        " ++ quoted (py "B") ++ [newline]
        ++ py "    ]" ++ [newline]
        ++ py "}").
Proof. vm_compute. reflexivity. Qed.

(** * Further properties *)

(** ** Dictionary updates *)

Section UpdateFacts.

Variable V : Type.
Implicit Types (d e : dict V) (k : pystr).

Lemma keys_update_In : forall e d k,
  In k (keys (update d e)) <-> In k (keys d) \/ In k (keys e).
Proof.
  unfold update. induction e as [|[k' v'] e IH]; intros d k; simpl.
  - tauto.
  - rewrite IH, keys_set_In. intuition.
Qed.

(** [d | e] and [d.update(e)]: the value of [e] wins. *)
Lemma get_update : forall e d k,
  wf e ->
  get k (update d e) =
  match get k e with
  | Some v => Some v
  | None => get k d
  end.
Proof.
  unfold update. induction e as [|[k' v'] e IH]; intros d k Hwf; simpl; auto.
  inversion Hwf as [|? ? Hk He]; subst. rewrite IH by exact He.
  destruct (PyStr.eqb k k') eqn:E.
  - apply eqb_eq in E. subst k'.
    apply get_None_keys in Hk. rewrite Hk. apply get_set_same.
  - apply eqb_neq in E. rewrite get_set_other by exact E. reflexivity.
Qed.

(** New keys are appended in their order. *)
Lemma update_disjoint : forall e d,
  wf e -> (forall k, In k (keys e) -> ~ In k (keys d)) ->
  update d e = d ++ e.
Proof.
  unfold update. induction e as [|[k' v'] e IH]; intros d Hwf Hd; simpl.
  - now rewrite app_nil_r.
  - inversion Hwf as [|? ? Hk He]; subst.
    rewrite set_new by (apply Hd; now left).
    rewrite IH; [now rewrite <- app_assoc | exact He |].
    intros k Hin. unfold keys. rewrite map_app, in_app_iff. simpl.
    intros [H|[H|[]]].
    + apply (Hd k); [now right | exact H].
    + subst. contradiction.
Qed.

Lemma get_filter_matched : forall (zh source : dict V) k,
  get k (filter (matched source) zh) =
  if mem k source then get k zh else None.
Proof.
  induction zh as [|[k' v'] zh IH]; intros source k; simpl.
  - now destruct (mem k source).
  - unfold matched at 1. simpl. destruct (PyStr.eqb k k') eqn:E.
    + apply eqb_eq in E. subst k'. destruct (mem k source) eqn:Em.
      * simpl. now rewrite eqb_refl.
      * rewrite IH. now rewrite Em.
    + destruct (mem k' source); simpl; rewrite ?E; apply IH.
Qed.

Lemma values_set : forall d k v w,
  In w (map snd (set k v d)) -> w = v \/ In w (map snd d).
Proof.
  induction d as [|[k' v'] d IH]; intros k v w H; simpl in *.
  - destruct H as [H|[]]. now left.
  - destruct (PyStr.eqb k k'); simpl in H.
    + destruct H as [H|H]; auto.
    + destruct H as [H|H]; auto. apply IH in H. tauto.
Qed.

Lemma values_update : forall e d w,
  In w (map snd (update d e)) -> In w (map snd d) \/ In w (map snd e).
Proof.
  unfold update. induction e as [|[k' v'] e IH]; intros d w H; simpl in *.
  - now left.
  - apply IH in H as [H|H]; [|tauto].
    apply values_set in H as [->|H]; tauto.
Qed.

Lemma get_In : forall d k v, get k d = Some v -> In (k, v) d.
Proof.
  induction d as [|[k' v'] d IH]; intros k v H; simpl in *; [discriminate|].
  destruct (PyStr.eqb k k') eqn:E.
  - apply eqb_eq in E. injection H as ->. subst. now left.
  - right. now apply IH.
Qed.

Lemma In_get : forall d k v, wf d -> In (k, v) d -> get k d = Some v.
Proof.
  induction d as [|[k' v'] d IH]; intros k v Hwf H; simpl in *; [contradiction|].
  inversion Hwf as [|? ? Hk Hd]; subst.
  destruct H as [H|H].
  - injection H as -> ->. now rewrite eqb_refl.
  - destruct (PyStr.eqb k k') eqn:E.
    + apply eqb_eq in E. subst k'. exfalso. apply Hk.
      apply in_map_iff. now exists (k, v).
    + now apply IH.
Qed.

End UpdateFacts.

(** ** More on [save_translation] *)

Section SaveTranslationMore.

Variable V : Type.
Implicit Types (zh source corrected : dict V) (k : pystr).

Lemma repaired_false_step : forall order k,
  repaired order k = false ->
  Nat.eqb (List.length k) 255 = false \/
  find (startswith k) order = None.
Proof.
  unfold repaired. intros order k H.
  destruct (Nat.eqb (List.length k) 255); [|now left].
  destruct (find (startswith k) order); [discriminate | now right].
Qed.

(** The second loop logs one warning for each key it does not repair, in
    the order of the entries. *)
Lemma repair_truncated_log : forall u order zh corrected log c l,
  repair_truncated u order zh corrected log = Ok (c, l) ->
  l = log ++ map warning (filter (fun k => negb (repaired order k)) u).
Proof.
  induction u as [|k u IH]; intros order zh corrected log c l H; simpl in *.
  - inversion H; subst. now rewrite app_nil_r.
  - unfold repaired at 1.
    destruct (Nat.eqb (List.length k) 255); simpl.
    + destruct (find (startswith k) order); simpl.
      * destruct (getitem k zh); simpl in H; [eauto | discriminate].
      * apply IH in H. now rewrite <- app_assoc in H.
    + apply IH in H. now rewrite <- app_assoc in H.
Qed.

(** Keys that are not repaired leave the dictionary as it is. *)
Lemma repair_truncated_noop : forall u order zh corrected log,
  (forall k, In k u -> repaired order k = false) ->
  repair_truncated u order zh corrected log =
  Ok (corrected, log ++ map warning u).
Proof.
  induction u as [|k u IH]; intros order zh corrected log H; simpl.
  - now rewrite app_nil_r.
  - assert (Hu : forall k', In k' u -> repaired order k' = false)
      by (intros; apply H; now right).
    destruct (repaired_false_step order k (H k (or_introl eq_refl)))
      as [E|E]; rewrite E.
    + rewrite IH by exact Hu. now rewrite <- app_assoc.
    + destruct (Nat.eqb (List.length k) 255);
        rewrite IH by exact Hu; now rewrite <- app_assoc.
Qed.

(** The second loop depends on the order of the set only through the
    first match of each key. *)
Lemma repair_truncated_same_find : forall u o1 o2 zh corrected log,
  (forall k, In k u ->
     find (startswith k) o1 = find (startswith k) o2) ->
  repair_truncated u o1 zh corrected log =
  repair_truncated u o2 zh corrected log.
Proof.
  induction u as [|k u IH]; intros o1 o2 zh corrected log H; simpl; auto.
  rewrite (H k (or_introl eq_refl)).
  assert (Hu : forall k', In k' u ->
            find (startswith k') o1 = find (startswith k') o2)
    by (intros; apply H; now right).
  destruct (Nat.eqb (List.length k) 255); [|now apply IH].
  destruct (find (startswith k) o2); [|now apply IH].
  destruct (getitem k zh); simpl; [now apply IH | reflexivity].
Qed.

(** Every value the second loop stores is a value of the entries. *)
Lemma repair_truncated_values : forall u order zh corrected log c l w,
  repair_truncated u order zh corrected log = Ok (c, l) ->
  In w (map snd c) -> In w (map snd corrected) \/ In w (map snd zh).
Proof.
  induction u as [|k u IH]; intros order zh corrected log c l w H Hin;
    simpl in H.
  - inversion H; subst. now left.
  - destruct (Nat.eqb (List.length k) 255); [|eauto].
    destruct (find (startswith k) order); [|eauto].
    unfold getitem in H. destruct (get k zh) as [v|] eqn:Ev;
      simpl in H; [|discriminate].
    destruct (IH _ _ _ _ _ _ _ H Hin) as [Hc|Hz]; [|now right].
    apply values_set in Hc as [->|Hc]; [right | now left].
    apply get_In in Ev. apply in_map_iff. now exists (k, v).
Qed.

Lemma find_unique_perm : forall (f : pystr -> bool) l1 l2,
  Permutation l1 l2 ->
  (forall a b, In a l1 -> In b l1 -> f a = true -> f b = true -> a = b) ->
  find f l1 = find f l2.
Proof.
  intros f l1 l2 Hp Hu.
  destruct (find f l1) as [a|] eqn:E1; destruct (find f l2) as [b|] eqn:E2;
    auto.
  - apply find_some in E1 as [Ha Hfa]. apply find_some in E2 as [Hb Hfb].
    f_equal. symmetry. apply Hu; auto.
    eapply Permutation_in; [symmetry|]; eauto.
  - apply find_some in E1 as [Ha Hfa].
    pose proof (find_none _ _ E2 a (Permutation_in _ Hp Ha)). congruence.
  - apply find_some in E2 as [Hb Hfb].
    assert (Hb' : In b l1) by (eapply Permutation_in; [symmetry|]; eauto).
    pose proof (find_none _ _ E1 b Hb'). congruence.
Qed.

Lemma final_entry_nil : forall source, map (final_entry []) source = source.
Proof.
  induction source as [|[k o] source IH]; simpl; [reflexivity|].
  now rewrite IH.
Qed.

End SaveTranslationMore.

(** The value of a source key that no repair touches. *)
Lemma save_translation_get :
  forall (V : Type) (zh_cn_dict source_json : dict V) (order : list pystr)
         (k : pystr) (original : V),
    wf zh_cn_dict -> wf source_json ->
    get k source_json = Some original ->
    (forall p, In p (keys zh_cn_dict) -> mem p source_json = false ->
       List.length p = 255 -> find (startswith p) order <> Some k) ->
    exists doc log,
      save_translation zh_cn_dict (Some source_json) order = Ok (doc, log) /\
      get k doc = Some (get_default k zh_cn_dict original).
Proof.
  intros V zh source order k o Hzh Hsrc Hk Hno.
  destruct (save_translation_source zh order Hsrc) as [c [l [Hr H]]].
  exists (map (final_entry c) source), l. split; [exact H|].
  rewrite (get_final _ _ _ Hk). f_equal. unfold get_default.
  rewrite (repair_truncated_get_other _ _ _ _ _ Hr).
  - rewrite get_update by (apply NoDup_keys_filter, Hzh).
    rewrite get_filter_matched. unfold mem. rewrite Hk.
    now destruct (get k zh).
  - intros p Hp. apply unmatched_keys_In in Hp as [Hp Hm]. now apply Hno.
Qed.

(** X1 (value of a source key): take a source key that no truncated entry
    key is repaired to.  In the dumped document it has the value the
    entries give to that key, and the text of the source when the entries
    do not have the key. *)
Theorem save_translation_value :
  forall (V : Type) (zh_cn_dict source_json : dict V) (order : list pystr)
         (k : pystr) (original : V),
    wf zh_cn_dict -> wf source_json ->
    get k source_json = Some original ->
    (forall p, In p (keys zh_cn_dict) -> mem p source_json = false ->
       List.length p = 255 -> find (startswith p) order <> Some k) ->
    exists doc log,
      save_translation zh_cn_dict (Some source_json) order = Ok (doc, log) /\
      get k doc = Some (get_default k zh_cn_dict original).
Proof.
  intros V zh source order k o Hzh Hsrc Hk Hno.
  now apply save_translation_get.
Qed.

Lemma save_translation_value_witness :
  wf truncated_entries /\ wf long_source /\
  get (py "title") long_source = Some (py "Title") /\
  exists doc log,
    save_translation truncated_entries (Some long_source) (keys long_source)
    = Ok (doc, log) /\
    get (py "title") doc
    = Some (get_default (py "title") truncated_entries (py "Title")).
Proof.
  split; [exact wf_truncated_entries|].
  split; [exact wf_long_source|].
  split; [reflexivity|].
  apply (@save_translation_value pystr truncated_entries long_source
           (keys long_source) (py "title") (py "Title")).
  - exact wf_truncated_entries.
  - exact wf_long_source.
  - reflexivity.
  - intros p [<-|[<-|[]]] _ _; vm_compute; discriminate.
Defined.

(** X2 (warnings): with a source file, what the function prints is one
    warning for each entry key that is neither a source key nor repaired,
    in the order of the entries, and nothing else. *)
Theorem save_translation_warnings :
  forall (V : Type) (zh_cn_dict source_json : dict V) (order : list pystr),
    wf source_json ->
    exists doc,
      save_translation zh_cn_dict (Some source_json) order =
      Ok (doc,
          map warning
            (filter (fun k => negb (mem k source_json)
                              && negb (repaired order k))
               (keys zh_cn_dict))).
Proof.
  intros V zh source order Hsrc.
  destruct (save_translation_source zh order Hsrc) as [c [l [Hr H]]].
  exists (map (final_entry c) source). rewrite H. do 2 f_equal.
  rewrite (repair_truncated_log _ _ _ _ _ Hr). simpl. f_equal.
  clear. induction zh as [|[k v] zh IH]; simpl; [reflexivity|].
  unfold unmatched at 1. simpl.
  destruct (mem k source); simpl; [exact IH|].
  destruct (repaired order k); simpl; [exact IH | now rewrite IH].
Qed.

Lemma save_translation_warnings_witness :
  wf long_source /\
  exists doc,
    save_translation truncated_entries (Some long_source) (keys long_source)
    = Ok (doc,
          map warning
            (filter (fun k => negb (mem k long_source)
                              && negb (repaired (keys long_source) k))
               (keys truncated_entries))).
Proof.
  split; [exact wf_long_source|].
  apply (@save_translation_warnings pystr truncated_entries long_source
           (keys long_source) wf_long_source).
Defined.

(** X3 (nothing matches): when no entry key is a source key or is
    repaired, in particular when there is no entry, the dumped document is
    the source itself and every entry key is warned about. *)
Theorem save_translation_all_dropped :
  forall (V : Type) (zh_cn_dict source_json : dict V) (order : list pystr),
    wf source_json ->
    (forall k, In k (keys zh_cn_dict) ->
       mem k source_json = false /\ repaired order k = false) ->
    save_translation zh_cn_dict (Some source_json) order =
    Ok (source_json, map warning (keys zh_cn_dict)).
Proof.
  intros V zh source order Hsrc Hall.
  unfold save_translation. rewrite direct_match_spec. simpl.
  assert (Hm : filter (matched source) zh = []).
  { clear Hsrc. induction zh as [|[k v] zh IH]; simpl; [reflexivity|].
    unfold matched at 1. simpl.
    destruct (Hall k (or_introl eq_refl)) as [-> _].
    apply IH. intros k' Hk'. apply Hall. now right. }
  assert (Hu : keys (filter (unmatched source) zh) = keys zh).
  { clear Hsrc Hm. induction zh as [|[k v] zh IH]; simpl; [reflexivity|].
    unfold unmatched at 1. simpl.
    destruct (Hall k (or_introl eq_refl)) as [-> _]. simpl. f_equal.
    apply IH. intros k' Hk'. apply Hall. now right. }
  rewrite Hm, Hu. cbn [update fold_left].
  rewrite repair_truncated_noop by (intros k Hk; now apply Hall).
  cbn [bind fst snd app]. rewrite build_final_wf by exact Hsrc.
  cbn [bind]. now rewrite final_entry_nil.
Qed.

Lemma save_translation_all_dropped_witness :
  wf long_source /\
  save_translation stray_entries (Some long_source) (keys long_source)
  = Ok (long_source, map warning (keys stray_entries)).
Proof.
  split; [exact wf_long_source|].
  apply (@save_translation_all_dropped pystr stray_entries long_source
           (keys long_source) wf_long_source).
  intros k [<-|[<-|[]]]; split; reflexivity.
Defined.

(** X4 (order of the set): if, for every entry key, at most one source key
    starts with it, the result of [save_translation] is the same in
    whatever order the set of source keys is walked. *)
Theorem save_translation_order_independent :
  forall (V : Type) (zh_cn_dict : dict V) (source_json : option (dict V))
         (order1 order2 : list pystr),
    Permutation order1 order2 ->
    (forall p a b, In p (keys zh_cn_dict) -> In a order1 -> In b order1 ->
       startswith p a = true -> startswith p b = true -> a = b) ->
    save_translation zh_cn_dict source_json order1 =
    save_translation zh_cn_dict source_json order2.
Proof.
  intros V zh [source|] o1 o2 Hp Hu; [|reflexivity].
  unfold save_translation. rewrite direct_match_spec. simpl.
  rewrite (repair_truncated_same_find _ o1 o2); [reflexivity|].
  intros k Hk. apply unmatched_keys_In in Hk as [Hk _].
  apply find_unique_perm; [exact Hp|].
  intros a b Ha Hb. now apply Hu.
Qed.

Lemma save_translation_order_independent_witness :
  Permutation (keys long_source) (rev (keys long_source)) /\
  save_translation truncated_entries (Some long_source) (keys long_source) =
  save_translation truncated_entries (Some long_source)
    (rev (keys long_source)).
Proof.
  split; [apply Permutation_rev|].
  apply (@save_translation_order_independent pystr truncated_entries
           (Some long_source) (keys long_source) (rev (keys long_source))).
  - apply Permutation_rev.
  - intros p a b [<-|[<-|[]]] [<-|[<-|[]]] [<-|[<-|[]]]; vm_compute;
      intros; try reflexivity; discriminate.
Defined.

(** X5 (no invented value): with a source file, every entry of the dumped
    document is an entry of the source or carries a value of the
    entries. *)
Theorem save_translation_values_from_inputs :
  forall (V : Type) (zh_cn_dict source_json : dict V) (order : list pystr),
    wf source_json ->
    exists doc log,
      save_translation zh_cn_dict (Some source_json) order = Ok (doc, log) /\
      forall k v, In (k, v) doc ->
        In (k, v) source_json \/ In v (map snd zh_cn_dict).
Proof.
  intros V zh source order Hsrc.
  destruct (save_translation_source zh order Hsrc) as [c [l [Hr H]]].
  exists (map (final_entry c) source), l. split; [exact H|].
  intros k v Hin. apply in_map_iff in Hin as [[k' o] [E Hin]].
  unfold final_entry, get_default in E. simpl in E.
  destruct (get k' c) as [w|] eqn:Ec.
  - right. injection E as <- <-.
    assert (Hw : In w (map snd c)).
    { apply get_In in Ec. apply in_map_iff. now exists (k', w). }
    destruct (repair_truncated_values _ _ _ _ _ _ Hr Hw) as [Hu|Hz]; auto.
    apply values_update in Hu as [[]|Hf].
    apply in_map_iff in Hf as [kv [<- Hf]].
    apply filter_In in Hf as [Hf _]. apply in_map_iff. now exists kv.
  - left. injection E as <- <-. exact Hin.
Qed.

Lemma save_translation_values_from_inputs_witness :
  wf long_source /\
  exists doc log,
    save_translation truncated_entries (Some long_source) (keys long_source)
    = Ok (doc, log) /\
    forall k v, In (k, v) doc ->
      In (k, v) long_source \/ In v (map snd truncated_entries).
Proof.
  split; [exact wf_long_source|].
  apply (@save_translation_values_from_inputs pystr truncated_entries
           long_source (keys long_source) wf_long_source).
Defined.

(** ** More on [process_translation] *)

Section StoreMore.

Variables (A V : Type) (g : A -> V).

Let store (d : dict V) (kv : pystr * A) : dict V :=
  set (fst kv) (g (snd kv)) d.

(** Storing entries keeps the keys already there, in their order, and
    appends the new ones. *)
Lemma fold_store_keys : forall kvs d,
  exists extra, keys (fold_left store kvs d) = keys d ++ extra.
Proof.
  induction kvs as [|[k a] kvs IH]; intro d; simpl.
  - exists []. now rewrite app_nil_r.
  - destruct (IH (store d (k, a))) as [extra ->]. unfold store. simpl.
    destruct (in_dec pystr_eq_dec k (keys d)) as [i|n].
    + rewrite keys_set_old by exact i. now exists extra.
    + rewrite set_new by exact n. unfold keys. rewrite map_app. simpl.
      exists (k :: extra). now rewrite <- app_assoc.
Qed.

Lemma existsb_eqb_In : forall k (l : list pystr),
  existsb (PyStr.eqb k) l = true <-> In k l.
Proof.
  intros k l. rewrite existsb_exists. split.
  - intros [x [Hx E]]. apply eqb_eq in E. now subst.
  - intro H. exists k. split; [exact H | apply eqb_refl].
Qed.

(** The keys after storing: those already there, then each new key where
    it first occurs. *)
Lemma fold_store_keys_exact : forall kvs d,
  keys (fold_left store kvs d) =
  keys d ++ first_new_keys (keys d) (map fst kvs).
Proof.
  induction kvs as [|[k a] kvs IH]; intro d; simpl.
  - now rewrite app_nil_r.
  - rewrite IH. unfold store. simpl.
    destruct (existsb (PyStr.eqb k) (keys d)) eqn:E.
    + apply existsb_eqb_In in E. now rewrite keys_set_old.
    + assert (Hn : ~ In k (keys d)).
      { intro Hin. apply existsb_eqb_In in Hin. congruence. }
      rewrite set_new by exact Hn. unfold keys. rewrite map_app. simpl.
      now rewrite <- app_assoc.
Qed.

Lemma fold_store_wf : forall kvs d, wf d -> wf (fold_left store kvs d).
Proof.
  induction kvs as [|[k a] kvs IH]; intros d H; simpl; auto.
  apply IH. unfold store. now apply wf_set.
Qed.

End StoreMore.

Lemma sub_double_backslash_plain : forall value,
  ~ In backslash value -> sub_double_backslash value = value.
Proof.
  induction value as [|c rest IH]; intro H; [reflexivity|].
  destruct rest as [|c' rest']; [reflexivity|].
  change (sub_double_backslash (c :: c' :: rest'))
    with (if N.eqb c backslash && N.eqb c' backslash
          then backslash :: sub_double_backslash rest'
          else c :: sub_double_backslash (c' :: rest')).
  assert (E : N.eqb c backslash = false).
  { apply N.eqb_neq. intros ->. apply H. now left. }
  rewrite E. cbn [andb]. f_equal. apply IH. intro Hin. apply H. now right.
Qed.

Lemma sub_backslash_n_plain : forall value,
  ~ In backslash value -> sub_backslash_n value = value.
Proof.
  induction value as [|c rest IH]; intro H; [reflexivity|].
  destruct rest as [|c' rest']; [reflexivity|].
  change (sub_backslash_n (c :: c' :: rest'))
    with (if N.eqb c backslash && N.eqb c' letter_n
          then newline :: sub_backslash_n rest'
          else c :: sub_backslash_n (c' :: rest')).
  assert (E : N.eqb c backslash = false).
  { apply N.eqb_neq. intros ->. apply H. now left. }
  rewrite E. cbn [andb]. f_equal. apply IH. intro Hin. apply H. now right.
Qed.

(** X6 (plain text): a value without a backslash goes through the
    normalisation unchanged, except that its spaces become U+00A0 when it
    has a Chinese character. *)
Theorem normalize_plain :
  forall value : pystr,
    ~ In backslash value ->
    normalize value =
    if has_cjk value then map space_to_nbsp value else value.
Proof.
  intros value H. unfold normalize.
  rewrite (@sub_double_backslash_plain value H),
    (@sub_backslash_n_plain value H).
  destruct (has_cjk value); [apply sub_space_map | reflexivity].
Qed.

Lemma normalize_plain_witness :
  ~ In backslash hello_world_zh /\
  normalize hello_world_zh =
  if has_cjk hello_world_zh then map space_to_nbsp hello_world_zh
  else hello_world_zh.
Proof.
  assert (H : ~ In backslash hello_world_zh).
  { intros [H|[H|[H|[H|[H|[]]]]]]; discriminate. }
  split; [exact H|].
  apply (@normalize_plain hello_world_zh H).
Defined.

(** X7 (stored values): for a file whose name does not contain
    [ftbquest] and entries with distinct keys, the dictionary returned
    holds, at the key of each entry, its resolved value normalised. *)
Theorem process_translation_stores_normalized :
  forall translations local_source path_name item,
    contains (py "ftbquest") path_name = false ->
    NoDup (map item_key translations) ->
    In item translations ->
    get (item_key item)
      (process_translation translations local_source path_name)
    = Some (normalize (resolved_value item)).
Proof.
  intros translations local_source path_name item Hp Hnd Hin.
  unfold process_translation, translate. rewrite Hp, combine_map.
  apply (fold_store_get_in normalize).
  - now rewrite map_map.
  - apply in_map_iff. now exists item.
Qed.

Lemma scenario_entries_NoDup : NoDup (map item_key scenario_entries).
Proof. repeat constructor. intros []. Defined.

Lemma process_translation_stores_normalized_witness :
  contains (py "ftbquest") (py "en_us.json") = false /\
  NoDup (map item_key scenario_entries) /\
  get (py "a")
    (process_translation scenario_entries (Some scenario_source)
       (py "en_us.json"))
  = Some [30002%N].
Proof.
  split; [reflexivity|].
  split; [exact scenario_entries_NoDup|].
  apply (@process_translation_stores_normalized scenario_entries
           (Some scenario_source) (py "en_us.json")
           {| item_key := py "a"; item_original := Some (py "A");
              item_translation := Some [30002%N]; item_stage := 1 |}).
  - reflexivity.
  - exact scenario_entries_NoDup.
  - now left.
Defined.

(** X8 (local file kept): for a file whose name does not contain
    [ftbquest], the keys of the dictionary returned are the keys of the
    local source file (none when the file cannot be read) in their order,
    followed by the keys of the entries that the local file does not have,
    each where it first occurs among the entries; a key of the local file
    that no entry has keeps its text, and no key occurs twice. *)
Theorem process_translation_keeps_local :
  forall translations (local_source : option (dict pystr)) path_name,
    contains (py "ftbquest") path_name = false ->
    keys (process_translation translations local_source path_name)
    = keys (local_entries local_source)
      ++ first_new_keys (keys (local_entries local_source))
           (map item_key translations) /\
    (forall k, ~ In k (map item_key translations) ->
       get k (process_translation translations local_source path_name)
       = get k (local_entries local_source)) /\
    (wf (local_entries local_source) ->
     wf (process_translation translations local_source path_name)).
Proof.
  intros translations local_source path_name Hp.
  unfold process_translation, translate. rewrite Hp, combine_map.
  fold (local_entries local_source).
  split.
  - rewrite (fold_store_keys_exact normalize). now rewrite map_map.
  - split.
    + intros k Hk. apply (fold_store_get_other normalize).
      now rewrite map_map.
    + apply (fold_store_wf normalize).
Qed.

Lemma process_translation_keeps_local_witness :
  contains (py "ftbquest") (py "en_us.json") = false /\
  keys (process_translation scenario_entries (Some [(py "b", py "B")])
          (py "en_us.json"))
  = [py "b"; py "a"] /\
  keys (process_translation scenario_entries (Some [(py "b", py "B")])
          (py "en_us.json"))
  = keys (local_entries (Some [(py "b", py "B")]))
    ++ first_new_keys (keys (local_entries (Some [(py "b", py "B")])))
         (map item_key scenario_entries).
Proof.
  split; [reflexivity|].
  split; [reflexivity|].
  apply (proj1 (@process_translation_keeps_local scenario_entries
                  (Some [(py "b", py "B")]) (py "en_us.json") eq_refl)).
Defined.

(** X9 (quest files): for a file whose name contains [ftbquest] and
    entries with distinct keys, the dictionary returned is the list of the
    entries in their order, whatever the local source file holds; each
    value is the resolved value, not unescaped, with its spaces replaced
    only if it has a Chinese character and does not contain [image]. *)
Theorem process_translation_ftbquest :
  forall translations local_source path_name,
    contains (py "ftbquest") path_name = true ->
    NoDup (map item_key translations) ->
    process_translation translations local_source path_name =
    map (fun item => (item_key item, ftbquest_value (resolved_value item)))
      translations.
Proof.
  intros translations local_source path_name Hp Hnd.
  unfold process_translation, translate. rewrite Hp.
  rewrite map_map, combine_map. unfold dict_of_pairs.
  rewrite update_disjoint; [reflexivity | | intros k _ []].
  unfold wf, keys. now rewrite map_map.
Qed.

Lemma process_translation_ftbquest_witness :
  contains (py "ftbquest") (py "ftbquest_en_us.json") = true /\
  NoDup (map item_key scenario_entries) /\
  process_translation scenario_entries (Some scenario_source)
    (py "ftbquest_en_us.json") =
  map (fun item => (item_key item, ftbquest_value (resolved_value item)))
    scenario_entries.
Proof.
  split; [reflexivity|].
  split; [exact scenario_entries_NoDup|].
  apply (@process_translation_ftbquest scenario_entries
           (Some scenario_source) (py "ftbquest_en_us.json") eq_refl
           scenario_entries_NoDup).
Defined.

(** ** More on [normal_json2_ftb_desc] *)

(** [sub in s] holds exactly when [s] is some text, [sub], some text. *)
Lemma contains_iff : forall sub s,
  contains sub s = true <-> exists pre post, s = pre ++ sub ++ post.
Proof.
  intros sub s. split.
  - induction s as [|c s IH]; simpl; rewrite orb_true_iff.
    + intros [H|H]; [|discriminate].
      apply startswith_app in H as [t Ht]. now exists [], t.
    + intros [H|H].
      * apply startswith_app in H as [t Ht]. now exists [], t.
      * destruct (IH H) as [pre [post ->]]. now exists (c :: pre), post.
  - intros [pre [post ->]]. induction pre as [|c pre IH].
    + simpl. destruct (sub ++ post) eqn:E; simpl; rewrite <- ?E;
        apply orb_true_iff; left; apply startswith_app; eauto.
    + simpl. apply orb_true_iff. now right.
Qed.

Lemma contains_app_drop : forall a b s,
  contains (a ++ b) s = true -> contains b s = true.
Proof.
  intros a b s H. apply contains_iff in H as [pre [post ->]].
  apply contains_iff. exists (pre ++ a), post.
  now rewrite <- !app_assoc.
Qed.

Lemma new_key_has_desc : forall key_id,
  contains (py "desc") (new_key key_id) = true.
Proof.
  intro key_id. apply contains_iff.
  exists (py "quest." ++ key_id ++ py ".quest_"), [].
  unfold new_key. rewrite <- !app_assoc. reflexivity.
Qed.

Lemma new_key_inj : forall a b, new_key a = new_key b -> a = b.
Proof.
  unfold new_key. intros a b H.
  apply app_inv_head in H. now apply app_inv_tail in H.
Qed.

(** What the inner loop returns comes from the keys that contain the
    pattern. *)
Lemma quest_desc_values_In : forall ks pattern (en_json : dict json) l x,
  quest_desc_values ks pattern en_json = Ok l -> In x l ->
  exists k, In k ks /\ contains pattern k = true /\ get k en_json = Some x.
Proof.
  induction ks as [|k ks IH]; intros pattern en_json l x H Hin; simpl in H.
  - inversion H; subst. contradiction.
  - destruct (contains pattern k) eqn:E.
    + unfold getitem in H. destruct (get k en_json) as [v|] eqn:Ev;
        simpl in H; [|discriminate].
      destruct (quest_desc_values ks pattern en_json) as [l'|] eqn:El;
        simpl in H; [|discriminate].
      inversion H; subst. destruct Hin as [<-|Hin].
      * exists k. repeat split; auto. now left.
      * destruct (IH _ _ _ _ El Hin) as [k' [H1 H2]].
        exists k'. split; [now right | exact H2].
    + destruct (IH _ _ _ _ H Hin) as [k' [H1 H2]].
      exists k'. split; [now right | exact H2].
Qed.

Lemma set_add_In : forall key s k,
  In k (set_add key s) <-> k = key \/ In k s.
Proof.
  intros key s k. unfold set_add.
  destruct (existsb (PyStr.eqb key) s) eqn:E.
  - split; auto. intros [->|H]; auto.
    apply existsb_exists in E as [x [Hx Ex]]. apply eqb_eq in Ex. now subst.
  - rewrite in_app_iff. simpl. intuition.
Qed.

Lemma In_set : forall (V : Type) (d : dict V) k v k0 v0,
  In (k, v) (set k0 v0 d) -> (k, v) = (k0, v0) \/ In (k, v) d.
Proof.
  induction d as [|[k' v'] d IH]; intros k v k0 v0 H; simpl in H.
  - destruct H as [H|[]]. now left.
  - destruct (PyStr.eqb k0 k') eqn:E.
    + apply eqb_eq in E. subst k'. destruct H as [H|H].
      * now left.
      * right. now right.
    + destruct H as [H|H].
      * right. now left.
      * apply IH in H as [H|H]; [now left | right; now right].
Qed.

Section CollectFacts.

Variable en_json : dict json.

(** The list the first loop stores for an identifier. *)
Let expected (key_id : pystr) : result (list json) :=
  quest_desc_values (keys en_json) (key_id ++ py ".quest_desc") en_json.

Lemma collect_desc_wf : forall items temp_set temp_en_json ts te,
  collect_desc items en_json temp_set temp_en_json = Ok (ts, te) ->
  wf temp_en_json -> wf te.
Proof.
  induction items as [|[key value] items IH];
    intros temp_set temp_en_json ts te H Hwf; cbn [collect_desc] in H.
  - now inversion H; subst.
  - destruct (contains (py "desc") key); [|eauto].
    destruct (nth_error (PyStr.split dot key) 1) as [key_id|];
      [|discriminate].
    destruct (quest_desc_values _ _ _) as [l|]; cbn [bind] in H;
      [|discriminate].
    eapply IH; eauto. now apply wf_set.
Qed.

(** [temp_set] receives the keys that contain [desc]. *)
Lemma collect_desc_temp_set : forall items temp_set temp_en_json ts te,
  collect_desc items en_json temp_set temp_en_json = Ok (ts, te) ->
  forall k, In k ts <->
    In k temp_set \/ (In k (keys items) /\ contains (py "desc") k = true).
Proof.
  induction items as [|[key value] items IH];
    intros temp_set temp_en_json ts te H k; cbn [collect_desc] in H.
  - inversion H; subst. simpl. tauto.
  - destruct (contains (py "desc") key) eqn:E.
    + destruct (nth_error (PyStr.split dot key) 1) as [key_id|];
        [|discriminate].
      destruct (quest_desc_values _ _ _) as [l|]; cbn [bind] in H;
        [|discriminate].
      rewrite (IH _ _ _ _ H k), set_add_In. simpl. split.
      * intros [[->|Hk]|[Hk Hc]]; auto.
      * intros [Hk|[[<-|Hk] Hc]]; auto.
    + rewrite (IH _ _ _ _ H k). simpl. split.
      * intros [Hk|[Hk Hc]]; auto.
      * intros [Hk|[[<-|Hk] Hc]]; auto. congruence.
Qed.

(** [temp_en_json] receives built keys bound to lists. *)
Lemma collect_desc_entries : forall items temp_set temp_en_json ts te,
  collect_desc items en_json temp_set temp_en_json = Ok (ts, te) ->
  forall k v, In (k, v) te ->
    In (k, v) temp_en_json \/
    exists key_id l, k = new_key key_id /\ v = JList l /\
                     expected key_id = Ok l.
Proof.
  induction items as [|[key value] items IH];
    intros temp_set temp_en_json ts te H k v Hin; cbn [collect_desc] in H.
  - inversion H; subst. now left.
  - destruct (contains (py "desc") key); [|eauto].
    destruct (nth_error (PyStr.split dot key) 1) as [key_id|];
      [|discriminate].
    destruct (quest_desc_values _ _ _) as [l|] eqn:El; cbn [bind] in H;
      [|discriminate].
    destruct (IH _ _ _ _ H k v Hin) as [Hs|He]; [|now right].
    apply In_set in Hs as [Hs|Hs]; [|now left].
    injection Hs as -> ->. right. exists key_id, l. repeat split. exact El.
Qed.

(** The list stored for an identifier is the one it expects. *)
Lemma collect_desc_get : forall items temp_set temp_en_json ts te key_id l,
  collect_desc items en_json temp_set temp_en_json = Ok (ts, te) ->
  expected key_id = Ok l ->
  get (new_key key_id) temp_en_json = Some (JList l) \/
  (exists key, In key (keys items) /\ contains (py "desc") key = true /\
               nth_error (PyStr.split dot key) 1 = Some key_id) ->
  get (new_key key_id) te = Some (JList l).
Proof.
  induction items as [|[key value] items IH];
    intros temp_set temp_en_json ts te key_id l H Hexp Hor;
    cbn [collect_desc] in H.
  - inversion H; subst. destruct Hor as [Hg|[key [[] _]]]. exact Hg.
  - destruct (contains (py "desc") key) eqn:E.
    + destruct (nth_error (PyStr.split dot key) 1) as [id0|] eqn:En;
        [|discriminate].
      destruct (quest_desc_values _ _ _) as [l0|] eqn:El; cbn [bind] in H;
        [|discriminate].
      apply (IH _ _ _ _ _ _ H Hexp).
      destruct (pystr_eq_dec id0 key_id) as [->|Hne].
      * left. fold (new_key key_id). rewrite get_set_same.
        unfold expected in Hexp. congruence.
      * fold (new_key id0).
        rewrite get_set_other
          by (intro Heq; apply new_key_inj in Heq; congruence).
        destruct Hor as [Hg|[key' [[<-|Hk] [Hc Hn]]]].
        -- now left.
        -- cbn [fst] in Hn. congruence.
        -- right. exists key'. auto.
    + apply (IH _ _ _ _ _ _ H Hexp).
      destruct Hor as [Hg|[key' [[<-|Hk] [Hc Hn]]]].
      * now left.
      * cbn [fst] in Hc. congruence.
      * right. exists key'. auto.
Qed.

End CollectFacts.

Lemma pop_all_filter : forall l (d : dict json),
  pop_all l d = filter (fun kv => negb (existsb (PyStr.eqb (fst kv)) l)) d.
Proof.
  unfold pop_all. induction l as [|k l IH]; intro d; simpl.
  - induction d as [|kv d IHd]; simpl; [reflexivity | now rewrite <- IHd].
  - rewrite IH. clear IH. induction d as [|[k' v'] d IHd]; simpl; auto.
    rewrite (eqb_sym k' k).
    destruct (PyStr.eqb k k'); simpl; rewrite IHd; reflexivity.
Qed.

Lemma filter_as_json : forall (f : pystr -> bool) (doc : dict pystr),
  filter (fun kv => f (fst kv)) (as_json doc) =
  as_json (filter (fun kv => f (fst kv)) doc).
Proof.
  intros f doc. unfold as_json.
  induction doc as [|[k v] doc IH]; simpl; [reflexivity|].
  destruct (f k); simpl; now rewrite IH.
Qed.

(** The shape of the result, when the function returns. *)
Lemma normal_json2_ftb_desc_shape : forall (doc : dict pystr) r,
  normal_json2_ftb_desc doc = Ok r ->
  exists ts te,
    collect_desc (as_json doc) (as_json doc) [] [] = Ok (ts, te) /\
    wf te /\
    r = as_json (filter (@no_desc pystr) doc) ++ te.
Proof.
  intros doc r H. unfold normal_json2_ftb_desc in H. fold (as_json doc) in H.
  destruct (collect_desc (as_json doc) (as_json doc) [] [])
    as [[ts te]|] eqn:Ec; simpl in H; [|discriminate].
  inversion H; subst. exists ts, te. split; [reflexivity|].
  assert (Hwf : wf te) by (eapply collect_desc_wf; eauto; constructor).
  split; [exact Hwf|].
  assert (Hpop : pop_all ts (as_json doc)
                 = as_json (filter (@no_desc pystr) doc)).
  { assert (Hf : as_json (filter (@no_desc pystr) doc)
                 = filter (@no_desc json) (as_json doc)).
    { symmetry.
      apply (filter_as_json (fun k => negb (contains (py "desc") k))). }
    rewrite pop_all_filter, Hf.
    apply filter_ext_in. intros [k v] Hin. unfold no_desc. cbn [fst].
    f_equal.
    destruct (contains (py "desc") k) eqn:E.
    - apply existsb_exists. exists k. split; [|apply eqb_refl].
      apply (collect_desc_temp_set _ _ _ _ Ec). right. split; auto.
      apply in_map_iff. now exists (k, v).
    - destruct (existsb (PyStr.eqb k) ts) eqn:Ex; [|reflexivity].
      apply existsb_exists in Ex as [x [Hx Ex]]. apply eqb_eq in Ex.
      subst x. apply (collect_desc_temp_set _ _ _ _ Ec) in Hx
        as [[]|[_ Hc]]. congruence. }
  rewrite Hpop. apply update_disjoint; [exact Hwf|].
  intros k Hk Hin. apply in_map_iff in Hk as [[k' v] [<- Hkv]].
  destruct (collect_desc_entries _ _ _ _ Ec _ _ Hkv)
    as [[]|[key_id [l [-> _]]]].
  unfold as_json, keys in Hin. rewrite map_map in Hin.
  apply in_map_iff in Hin as [[k0 v0] [E0 Hf]].
  apply filter_In in Hf as [_ Hf]. unfold no_desc in Hf.
  simpl in *. rewrite E0, new_key_has_desc in Hf. discriminate.
Qed.

Lemma wf_as_json : forall doc : dict pystr, wf doc -> wf (as_json doc).
Proof. intros doc H. unfold wf, as_json. now rewrite keys_wrap. Qed.

Lemma filter_key_contains_as_json : forall pattern (doc : dict pystr),
  map snd (filter (key_contains pattern) (as_json doc)) =
  map (fun kv => JStr (snd kv)) (filter (key_contains pattern) doc).
Proof.
  intros pattern doc. unfold as_json, key_contains.
  induction doc as [|[k v] doc IH]; simpl; [reflexivity|].
  destruct (contains pattern k); simpl; now rewrite IH.
Qed.

Lemma get_no_desc : forall (doc : dict pystr) k,
  contains (py "desc") k = true ->
  get k (as_json (filter (@no_desc pystr) doc)) = None.
Proof.
  intros doc k Hc. apply get_None_keys. unfold as_json, keys.
  rewrite map_map. intro Hin. apply in_map_iff in Hin as [[k' v] [E Hf]].
  apply filter_In in Hf as [_ Hf]. unfold no_desc in Hf. simpl in *.
  subst k'. rewrite Hc in Hf. discriminate.
Qed.

(** X10 (other keys): when every key that contains [desc] has a dot, the
    result starts with the entries whose key does not contain [desc], in
    their order and with their text, and goes on with list-valued entries
    whose keys are built keys [quest.<id>.quest_desc]; no key of the
    document that contains [desc] is kept as it was. *)
Theorem normal_json2_ftb_desc_layout :
  forall doc : dict pystr,
    desc_keys_have_dot doc ->
    exists te,
      normal_json2_ftb_desc doc
      = Ok (as_json (filter (@no_desc pystr) doc) ++ te) /\
      wf te /\
      forall k v, In (k, v) te ->
        exists key_id l, k = new_key key_id /\ v = JList l.
Proof.
  intros doc Hdot.
  destruct (normal_json2_ftb_desc_total Hdot) as [r Hr].
  destruct (normal_json2_ftb_desc_shape _ Hr) as [ts [te [Hc [Hwf ->]]]].
  exists te. split; [exact Hr|]. split; [exact Hwf|].
  intros k v Hin.
  destruct (collect_desc_entries _ _ _ _ Hc _ _ Hin)
    as [[]|[key_id [l [-> [-> _]]]]].
  now exists key_id, l.
Qed.

Lemma normal_json2_ftb_desc_layout_witness :
  desc_keys_have_dot (quest_doc (py "D")) /\
  exists te,
    normal_json2_ftb_desc (quest_doc (py "D"))
    = Ok (as_json (filter (@no_desc pystr) (quest_doc (py "D"))) ++ te) /\
    wf te /\
    forall k v, In (k, v) te ->
      exists key_id l, k = new_key key_id /\ v = JList l.
Proof.
  split; [apply quest_doc_keys_have_dot|].
  apply (@normal_json2_ftb_desc_layout (quest_doc (py "D"))
           (@quest_doc_keys_have_dot (py "D"))).
Defined.

(** X11 (built list): for a well-formed document whose keys that contain
    [desc] have a dot, and a key of it that contains [desc] with second
    segment [id], the result binds [quest.<id>.quest_desc] to the texts,
    in document order, of all the keys that contain [<id>.quest_desc]. *)
Theorem normal_json2_ftb_desc_built_list :
  forall (doc : dict pystr) (key key_id : pystr),
    wf doc -> desc_keys_have_dot doc ->
    In key (keys doc) -> contains (py "desc") key = true ->
    nth_error (PyStr.split dot key) 1 = Some key_id ->
    exists r,
      normal_json2_ftb_desc doc = Ok r /\
      get (new_key key_id) r =
      Some (JList (map (fun kv => JStr (snd kv))
                     (filter (key_contains (key_id ++ py ".quest_desc"))
                        doc))).
Proof.
  intros doc key key_id Hwf Hdot Hin Hc Hn.
  destruct (normal_json2_ftb_desc_total Hdot) as [r Hr].
  destruct (normal_json2_ftb_desc_shape _ Hr) as [ts [te [Hcd [_ ->]]]].
  eexists. split; [exact Hr|].
  rewrite get_app, (get_no_desc _ _ (new_key_has_desc key_id)).
  rewrite <- filter_key_contains_as_json.
  eapply collect_desc_get; [exact Hcd | |].
  - apply quest_desc_values_filter, wf_as_json, Hwf.
  - right. exists key. fold (as_json doc). unfold as_json.
    rewrite keys_wrap. auto.
Qed.

Lemma normal_json2_ftb_desc_built_list_witness :
  wf (quest_doc (py "D")) /\ desc_keys_have_dot (quest_doc (py "D")) /\
  exists r,
    normal_json2_ftb_desc (quest_doc (py "D")) = Ok r /\
    get (new_key (py "1")) r =
    Some (JList (map (fun kv => JStr (snd kv))
                   (filter (key_contains (py "1" ++ py ".quest_desc"))
                      (quest_doc (py "D"))))).
Proof.
  assert (Hwf : wf (quest_doc (py "D"))) by solve_wf.
  split; [exact Hwf|].
  split; [apply quest_doc_keys_have_dot|].
  apply (@normal_json2_ftb_desc_built_list (quest_doc (py "D"))
           (py "quest.1.desc") (py "1") Hwf
           (@quest_doc_keys_have_dot (py "D"))).
  - now left.
  - reflexivity.
  - reflexivity.
Defined.

Lemma same_kept_text_keys : forall doc doc',
  same_kept_text doc doc' -> keys (as_json doc) = keys (as_json doc').
Proof.
  intros doc doc' Hsame. unfold as_json. rewrite !keys_wrap. unfold keys.
  induction Hsame as [|kv kv' l l' [Hk _] _ IH]; simpl; [reflexivity|].
  now rewrite Hk, IH.
Qed.

Lemma same_kept_text_get : forall doc doc' k,
  same_kept_text doc doc' -> text_matters k = true ->
  get k (as_json doc) = get k (as_json doc').
Proof.
  intros doc doc' k Hsame Hk. unfold as_json.
  induction Hsame as [|[k0 v0] [k0' v0'] l l' [Hk0 Hv] _ IH]; simpl in *;
    [reflexivity|].
  subst k0'. destruct (PyStr.eqb k k0) eqn:E; [|exact IH].
  apply eqb_eq in E. subst k0. now rewrite (Hv Hk).
Qed.

Lemma same_kept_text_no_desc : forall doc doc',
  same_kept_text doc doc' ->
  filter (@no_desc pystr) doc = filter (@no_desc pystr) doc'.
Proof.
  intros doc doc' Hsame.
  induction Hsame as [|[k0 v0] [k0' v0'] l l' [Hk0 Hv] _ IH]; simpl in *;
    [reflexivity|].
  subst k0'.
  assert (Hnd : forall v : pystr,
            no_desc (k0, v) = negb (contains (py "desc") k0))
    by reflexivity.
  rewrite (Hnd v0), (Hnd v0').
  destruct (contains (py "desc") k0) eqn:E; cbn [negb]; [exact IH|].
  rewrite IH, Hv; [reflexivity|]. unfold text_matters. now rewrite E.
Qed.

Lemma quest_desc_values_same :
  forall ks pattern (en1 en2 : dict json),
    (forall k, contains pattern k = true -> get k en1 = get k en2) ->
    quest_desc_values ks pattern en1 = quest_desc_values ks pattern en2.
Proof.
  induction ks as [|k ks IH]; intros pattern en1 en2 H; simpl;
    [reflexivity|].
  rewrite (IH pattern en1 en2 H).
  destruct (contains pattern k) eqn:E; [|reflexivity].
  unfold getitem. now rewrite (H k E).
Qed.

(** The first loop reads the keys of the entries and, through the inner
    loop, the texts of the keys that contain [.quest_desc]; nothing
    else. *)
Lemma collect_desc_same :
  forall items1 items2 (en1 en2 : dict json) temp_set temp_en_json,
    keys items1 = keys items2 -> keys en1 = keys en2 ->
    (forall k, contains (py ".quest_desc") k = true ->
       get k en1 = get k en2) ->
    collect_desc items1 en1 temp_set temp_en_json =
    collect_desc items2 en2 temp_set temp_en_json.
Proof.
  induction items1 as [|[key value] items1 IH];
    intros [|[key' value'] items2] en1 en2 ts te Hk He Hg;
    try discriminate; [reflexivity|].
  simpl in Hk. injection Hk as <- Hk. cbn [collect_desc].
  destruct (contains (py "desc") key); [|now apply IH].
  destruct (nth_error (PyStr.split dot key) 1) as [key_id|]; [|reflexivity].
  rewrite He.
  rewrite (quest_desc_values_same (keys en2) (key_id ++ py ".quest_desc")
             en1 en2).
  - destruct (quest_desc_values _ _ en2); cbn [bind]; [|reflexivity].
    now apply IH.
  - intros k Hc. apply Hg. eapply contains_app_drop; eauto.
Qed.

(** The text of a key that contains [desc] without [.quest_desc] has no
    part in the result. *)
Lemma normal_json2_ftb_desc_same : forall doc doc' : dict pystr,
  same_kept_text doc doc' ->
  normal_json2_ftb_desc doc = normal_json2_ftb_desc doc'.
Proof.
  intros doc doc' Hsame.
  assert (Hc : collect_desc (as_json doc) (as_json doc) [] [] =
               collect_desc (as_json doc') (as_json doc') [] []).
  { apply collect_desc_same.
    - now apply same_kept_text_keys.
    - now apply same_kept_text_keys.
    - intros k Hk. apply same_kept_text_get; [exact Hsame|].
      unfold text_matters. rewrite Hk. apply orb_true_r. }
  destruct (normal_json2_ftb_desc doc) as [r|e] eqn:Hr;
    destruct (normal_json2_ftb_desc doc') as [r'|e'] eqn:Hr'.
  - destruct (normal_json2_ftb_desc_shape _ Hr) as [ts [te [H1 [_ ->]]]].
    destruct (normal_json2_ftb_desc_shape _ Hr') as [ts' [te' [H2 [_ ->]]]].
    rewrite Hc, H2 in H1. inversion H1; subst.
    now rewrite (@same_kept_text_no_desc doc doc' Hsame).
  - destruct (normal_json2_ftb_desc_shape _ Hr) as [ts [te [H1 _]]].
    unfold normal_json2_ftb_desc in Hr'. fold (as_json doc') in Hr'.
    rewrite <- Hc, H1 in Hr'. discriminate.
  - destruct (normal_json2_ftb_desc_shape _ Hr') as [ts [te [H1 _]]].
    unfold normal_json2_ftb_desc in Hr. fold (as_json doc) in Hr.
    rewrite Hc, H1 in Hr. discriminate.
  - unfold normal_json2_ftb_desc in Hr, Hr'.
    fold (as_json doc) in Hr. fold (as_json doc') in Hr'.
    rewrite Hc in Hr.
    destruct (collect_desc (as_json doc') (as_json doc') [] []);
      simpl in *; congruence.
Qed.

(** X12 (what the lists hold): when every key that contains [desc] has a
    dot, each element of each list of the result is the text of a key that
    contains [.quest_desc].  The text of any other key that contains
    [desc], such as [quest.1.desc], is discarded: two documents with the
    same keys that differ only in such texts give the same result. *)
Theorem normal_json2_ftb_desc_list_sources :
  (forall doc : dict pystr,
     desc_keys_have_dot doc ->
     exists r,
       normal_json2_ftb_desc doc = Ok r /\
       forall k l x, In (k, JList l) r -> In x l ->
         exists key value,
           In (key, value) doc /\
           contains (py ".quest_desc") key = true /\ x = JStr value) /\
  (forall doc doc' : dict pystr,
     same_kept_text doc doc' ->
     normal_json2_ftb_desc doc = normal_json2_ftb_desc doc').
Proof.
  split; [|exact normal_json2_ftb_desc_same].
  intros doc Hdot.
  destruct (normal_json2_ftb_desc_total Hdot) as [r Hr].
  destruct (normal_json2_ftb_desc_shape _ Hr) as [ts [te [Hcd [_ ->]]]].
  eexists. split; [exact Hr|]. intros k l x Hin Hx.
  apply in_app_or in Hin as [Hin|Hin].
  - unfold as_json in Hin. apply in_map_iff in Hin as [kv [E _]].
    discriminate.
  - destruct (collect_desc_entries _ _ _ _ Hcd _ _ Hin)
      as [[]|[key_id [l' [_ [E Hl]]]]].
    injection E as <-.
    destruct (@quest_desc_values_In _ _ _ _ x Hl Hx) as [k0 [_ [Hc Hg]]].
    apply get_In in Hg. unfold as_json in Hg.
    apply in_map_iff in Hg as [[key value] [E Hd]].
    injection E as <- <-. exists key, value.
    split; [exact Hd|]. split; [|reflexivity].
    eapply contains_app_drop; eauto.
Qed.

Lemma quest_doc_same_kept_text :
  same_kept_text (quest_doc (py "D")) (quest_doc (py "other text")).
Proof.
  repeat constructor; simpl; intros; try reflexivity; discriminate.
Defined.

Lemma normal_json2_ftb_desc_list_sources_witness :
  desc_keys_have_dot (quest_doc (py "D")) /\
  same_kept_text (quest_doc (py "D")) (quest_doc (py "other text")) /\
  (exists r,
     normal_json2_ftb_desc (quest_doc (py "D")) = Ok r /\
     forall k l x, In (k, JList l) r -> In x l ->
       exists key value,
         In (key, value) (quest_doc (py "D")) /\
         contains (py ".quest_desc") key = true /\ x = JStr value) /\
  normal_json2_ftb_desc (quest_doc (py "D"))
  = normal_json2_ftb_desc (quest_doc (py "other text")).
Proof.
  split; [apply quest_doc_keys_have_dot|].
  split; [exact quest_doc_same_kept_text|].
  split.
  - apply (proj1 normal_json2_ftb_desc_list_sources (quest_doc (py "D"))
             (@quest_doc_keys_have_dot (py "D"))).
  - apply (proj2 normal_json2_ftb_desc_list_sources (quest_doc (py "D"))
             (quest_doc (py "other text")) quest_doc_same_kept_text).
Defined.

(** ** More on the tree functions *)



Lemma is_str_escape_quotes : forall data,
  is_str (escape_quotes data) = is_str data.
Proof. now intros []. Qed.

Lemma buildable_escape_quotes : forall data,
  buildable (escape_quotes data) = buildable data.
Proof.
  induction data as [| b | n | m e | s | l IH | d IH] using json_ind;
    try reflexivity.
  - cbn [escape_quotes buildable]. clear IH.
    induction l as [|item rest IHrest]; simpl; [reflexivity|].
    now rewrite is_str_escape_quotes, IHrest.
  - cbn [escape_quotes buildable].
    induction IH as [|kv rest Hkv _ IHrest]; simpl; [reflexivity|].
    now rewrite Hkv, IHrest.
Qed.

Lemma json_to_nbt_ok_buildable : forall data,
  (exists t, json_to_nbt data = Ok t) <-> buildable data = true.
Proof.
  intro data. split.
  - intros [t Ht]. destruct (buildable data) eqn:E; [reflexivity|].
    destruct (proj2 (json_to_nbt_buildable data) E) as [e [He _]].
    congruence.
  - apply json_to_nbt_buildable.
Qed.

(** X14 (escaping and building): escaping the quotes of a value does not
    change whether [json_to_nbt] accepts it: what decides is the kinds of
    the values, the range of the integers and the item type of the lists,
    none of which [escape_quotes] touches. *)
Theorem json_to_nbt_after_escape_quotes :
  forall data : json,
    (exists t, json_to_nbt data = Ok t) <->
    (exists t, json_to_nbt (escape_quotes data) = Ok t).
Proof.
  intro data.
  now rewrite !json_to_nbt_ok_buildable, buildable_escape_quotes.
Qed.

Lemma mapM_as_json : forall doc : dict pystr,
  mapM (fun kv => v <- json_to_nbt (snd kv) ;; Ok (fst kv, v)) (as_json doc)
  = Ok (map (fun kv => (fst kv, nbtlib.String (snd kv))) doc).
Proof.
  induction doc as [|[k v] doc IH]; [reflexivity|].
  unfold as_json in *. cbn [map mapM fst snd json_to_nbt bind].
  rewrite IH. reflexivity.
Qed.

(** X15 (text of a flat document): a document whose values are all strings
    is accepted by [json_to_nbt], and its text is an opening brace, one
    line per entry made of four spaces, the bare key, a colon and the
    value between double quotes, and a closing brace on its own line. *)
Theorem format_snbt_flat_document :
  forall doc : dict pystr,
    exists t,
      json_to_nbt (JDict (as_json doc)) = Ok t /\
      format_snbt t 0 =
      py "{" ++ List.concat (map flat_line doc) ++ [newline] ++ py "}".
Proof.
  intro doc. eexists. split.
  - cbn [json_to_nbt]. rewrite mapM_as_json. reflexivity.
  - cbn [format_snbt]. rewrite !concat_app. cbn [List.concat].
    rewrite !app_nil_r, map_map. reflexivity.
Qed.

(** *** Indentation *)

Lemma startswith_app_r : forall p s t,
  startswith p s = true -> startswith p (s ++ t) = true.
Proof.
  intros p s t H. apply startswith_app in H as [u ->].
  apply startswith_app. exists (u ++ t). now rewrite app_assoc.
Qed.

Lemma startswith_repeat_weaken : forall n m s,
  startswith (repeat space (n + m)) s = true ->
  startswith (repeat space n) s = true.
Proof.
  intros n m s H. apply startswith_app in H as [u ->].
  apply startswith_app. exists (repeat space m ++ u).
  now rewrite repeat_app, <- app_assoc.
Qed.

Lemma indented_app : forall n a b,
  indented n a = true -> indented n b = true -> indented n (a ++ b) = true.
Proof.
  induction a as [|c a IH]; intros b Ha Hb; simpl in *; [exact Hb|].
  apply andb_true_iff in Ha as [H1 H2]. apply andb_true_iff. split.
  - destruct (N.eqb c newline); [now apply startswith_app_r | reflexivity].
  - now apply IH.
Qed.

Lemma indented_no_newline : forall n s,
  no_newline s = true -> indented n s = true.
Proof.
  unfold no_newline. induction s as [|c s IH]; simpl; intro H; auto.
  apply andb_true_iff in H as [H1 H2]. apply negb_true_iff in H1.
  rewrite H1. simpl. now apply IH.
Qed.

Lemma indented_weaken : forall n m s,
  indented (n + m) s = true -> indented n s = true.
Proof.
  induction s as [|c s IH]; simpl; intro H; auto.
  apply andb_true_iff in H as [H1 H2]. apply andb_true_iff. split; auto.
  destruct (N.eqb c newline); [|reflexivity].
  eapply startswith_repeat_weaken; eauto.
Qed.

Lemma no_newline_app : forall a b,
  no_newline (a ++ b) = no_newline a && no_newline b.
Proof. intros a b. apply forallb_app. Qed.

Lemma no_newline_spaces : forall n, no_newline (repeat space n) = true.
Proof. induction n; simpl; auto. Qed.

(** A line: a line feed, the indentation, then a text that is itself
    indented. *)
Lemma indented_line : forall n m rest,
  indented n rest = true ->
  indented n ([newline] ++ repeat space (n + m) ++ rest) = true.
Proof.
  intros n m rest H. cbn [app indented]. rewrite N.eqb_refl.
  apply andb_true_iff. split.
  - apply startswith_repeat_weaken with (m := m).
    apply startswith_app. now exists rest.
  - apply indented_app; [|exact H].
    apply indented_no_newline, no_newline_spaces.
Qed.

Lemma indented_concat : forall n pieces,
  Forall (fun piece => indented n piece = true) pieces ->
  indented n (List.concat pieces) = true.
Proof.
  induction 1 as [|piece pieces Hp _ IH]; simpl; [reflexivity|].
  now apply indented_app.
Qed.

Lemma no_newline_uint : forall u,
  no_newline (py (NilEmpty.string_of_uint u)) = true.
Proof. induction u; simpl; auto. Qed.

Lemma no_newline_tag_str : forall n, no_newline (tag_str n) = true.
Proof.
  intro n. unfold tag_str. rewrite !no_newline_app.
  assert (H : no_newline (py (NilZero.string_of_int (Z.to_int n))) = true).
  { destruct (Z.to_int n) as [u|u]; simpl;
      destruct u; try reflexivity; apply no_newline_uint. }
  now rewrite H.
Qed.

Lemma format_snbt_compound : forall d indent,
  format_snbt (nbtlib.Compound d) indent =
  py "{" ++ List.concat (map (compound_line indent) d)
  ++ [newline] ++ repeat space (indent + 0) ++ py "}".
Proof.
  intros d indent. cbn [format_snbt]. rewrite !concat_app.
  cbn [List.concat]. rewrite !app_nil_r, Nat.add_0_r. do 3 f_equal.
  apply map_ext. intros [key value]. unfold compound_line.
  rewrite repeat_app, <- !app_assoc. reflexivity.
Qed.

Lemma format_snbt_list : forall l indent,
  format_snbt (nbtlib.List l) indent =
  py "[" ++ List.concat (map (list_line indent) l)
  ++ [newline] ++ repeat space (indent + 0) ++ py "]".
Proof.
  intros l indent. cbn [format_snbt]. rewrite !concat_app.
  cbn [List.concat]. rewrite !app_nil_r, Nat.add_0_r. do 3 f_equal.
  apply map_ext. intros item. unfold list_line.
  rewrite repeat_app, <- !app_assoc. reflexivity.
Qed.

(** X16 (indentation): if no key and no string of the tree has a line
    feed, every line feed of the text rendered at depth [indent] is
    followed by at least [indent] spaces: a nested block never comes back
    to the left of the block that holds it. *)
Theorem format_snbt_indented :
  forall (t : nbtlib.tag) (indent : nat),
    newline_free t = true ->
    indented indent (format_snbt t indent) = true.
Proof.
  induction t as [d IH | l IH | s | n] using tag_ind; intros indent Hnf.
  - rewrite format_snbt_compound.
    cbn [newline_free] in Hnf. rewrite forallb_forall in Hnf.
    rewrite Forall_forall in IH.
    apply indented_app; [reflexivity|]. apply indented_app.
    + apply indented_concat, Forall_forall. intros piece Hp.
      apply in_map_iff in Hp as [[key value] [<- Hin]].
      specialize (Hnf _ Hin). cbn [fst snd] in Hnf.
      apply andb_true_iff in Hnf as [Hkey Hval]. unfold compound_line.
      apply indented_line. cbn [fst snd].
      apply indented_app; [now apply indented_no_newline|].
      apply indented_app; [reflexivity|].
      apply indented_weaken with (m := INDENT_SIZE).
      now apply (IH _ Hin).
    + now apply indented_line.
  - rewrite format_snbt_list.
    cbn [newline_free] in Hnf. rewrite forallb_forall in Hnf.
    rewrite Forall_forall in IH.
    apply indented_app; [reflexivity|]. apply indented_app.
    + apply indented_concat, Forall_forall. intros piece Hp.
      apply in_map_iff in Hp as [item [<- Hin]].
      unfold list_line. apply indented_line.
      apply indented_weaken with (m := INDENT_SIZE).
      now apply (IH _ Hin), Hnf.
    + now apply indented_line.
  - cbn [newline_free] in Hnf. apply indented_no_newline.
    change (no_newline ([dquote] ++ s ++ [dquote]) = true).
    now rewrite !no_newline_app, Hnf.
  - apply indented_no_newline.
    change (no_newline ([dquote] ++ tag_str n ++ [dquote]) = true).
    now rewrite !no_newline_app, no_newline_tag_str.
Qed.

Lemma format_snbt_indented_witness :
  newline_free sample_tree = true /\
  indented 4 (format_snbt sample_tree 4) = true.
Proof.
  split; [reflexivity|].
  apply (@format_snbt_indented sample_tree 4). reflexivity.
Defined.

(** ** The pieces of [main] *)

Lemma normal_json2_ftb_desc_raises : forall doc : dict pystr,
  ~ desc_keys_have_dot doc ->
  normal_json2_ftb_desc doc = Raise IndexError.
Proof.
  intros doc H. unfold normal_json2_ftb_desc.
  rewrite collect_desc_index_error; [reflexivity|].
  rewrite keys_wrap.
  destruct (desc_keys_have_dot_dec doc) as [Hd|Hex];
    [contradiction | exact Hex].
Qed.

(** The aggregated document holds strings and lists of strings only. *)
Lemma normal_json2_ftb_desc_buildable : forall (doc : dict pystr) r,
  normal_json2_ftb_desc doc = Ok r -> buildable (JDict r) = true.
Proof.
  intros doc r Hr.
  destruct (normal_json2_ftb_desc_shape _ Hr) as [ts [te [Hcd [_ ->]]]].
  cbn [buildable]. apply forallb_forall. intros [k v] Hin. cbn [snd].
  apply in_app_or in Hin as [Hin|Hin].
  - unfold as_json in Hin. apply in_map_iff in Hin as [kv [E _]].
    now injection E as <- <-.
  - destruct (collect_desc_entries _ _ _ _ Hcd _ _ Hin)
      as [[]|[key_id [l [_ [-> Hl]]]]].
    cbn [buildable]. apply forallb_forall. intros x Hx.
    destruct (@quest_desc_values_In _ _ _ _ x Hl Hx) as [k0 [_ [_ Hg]]].
    apply get_In in Hg. unfold as_json in Hg.
    apply in_map_iff in Hg as [kv [E _]]. now injection E as <- <-.
Qed.

(** X17 (quest file): [main] writes no quest text when it collected no
    quest entry.  Otherwise the text is produced whenever every key that
    contains [desc] has a dot, and the only exception the computation can
    raise is the [IndexError] of a key without one: the [ValueError] of
    [json_to_nbt] never occurs on an aggregated document. *)
Theorem quests_snbt_outcome :
  forall ftbquests_dict : dict pystr,
    (ftbquests_dict = [] -> quests_snbt ftbquests_dict = None) /\
    (ftbquests_dict <> [] -> desc_keys_have_dot ftbquests_dict ->
     exists text, quests_snbt ftbquests_dict = Some (Ok text)) /\
    (ftbquests_dict <> [] -> ~ desc_keys_have_dot ftbquests_dict ->
     quests_snbt ftbquests_dict = Some (Raise IndexError)).
Proof.
  intro doc. split; [intros ->; reflexivity|].
  assert (Hlen : doc <> [] -> Nat.ltb 0 (List.length doc) = true).
  { destruct doc; [congruence | reflexivity]. }
  split; intros Hne Hdot; unfold quests_snbt; rewrite (Hlen Hne).
  - destruct (normal_json2_ftb_desc_total Hdot) as [r Hr]. rewrite Hr.
    cbn [bind].
    assert (Hs : buildable (escape_quotes (JDict r)) = true).
    { rewrite buildable_escape_quotes.
      eapply normal_json2_ftb_desc_buildable; eauto. }
    apply json_to_nbt_buildable in Hs as [t ->]. cbn [bind]. eauto.
  - now rewrite normal_json2_ftb_desc_raises.
Qed.

Lemma quest_doc_not_empty : quest_doc (py "D") <> [].
Proof. discriminate. Defined.

Lemma quests_snbt_outcome_witness :
  quest_doc (py "D") <> [] /\ desc_keys_have_dot (quest_doc (py "D")) /\
  exists text, quests_snbt (quest_doc (py "D")) = Some (Ok text).
Proof.
  split; [exact quest_doc_not_empty|].
  split; [apply quest_doc_keys_have_dot|].
  apply (proj1 (proj2 (quests_snbt_outcome (quest_doc (py "D"))))
           quest_doc_not_empty (@quest_doc_keys_have_dot (py "D"))).
Defined.

Lemma fold_store_keys_In :
  forall (A V : Type) (g : A -> V) (kvs : list (pystr * A)) (d : dict V) k,
    In k (keys (fold_left (fun d kv => set (fst kv) (g (snd kv)) d) kvs d)) ->
    In k (keys d) \/ In k (map fst kvs).
Proof.
  induction kvs as [|[k' a] kvs IH]; intros d k H; simpl in *; [now left|].
  apply IH in H as [H|H]; [|tauto].
  apply keys_set_In in H as [->|H]; tauto.
Qed.

(** X18 (from entries to document): for a file whose name does not
    contain [ftbquest], entries with distinct keys and well-formed files,
    the entry of a source key ends in the dumped document as its resolved
    value normalised, provided no truncated key is repaired to that source
    key. *)
Theorem reconcile_translated_key :
  forall translations (local_source : option (dict pystr))
         (source_json : dict pystr) (order : list pystr) path_name item,
    contains (py "ftbquest") path_name = false ->
    NoDup (map item_key translations) ->
    wf (local_entries local_source) -> wf source_json ->
    In item translations -> In (item_key item) (keys source_json) ->
    (forall p,
       In p (keys (local_entries local_source))
       \/ In p (map item_key translations) ->
       mem p source_json = false -> List.length p = 255 ->
       find (startswith p) order <> Some (item_key item)) ->
    exists doc log,
      save_translation
        (process_translation translations local_source path_name)
        (Some source_json) order = Ok (doc, log) /\
      get (item_key item) doc = Some (normalize (resolved_value item)).
Proof.
  intros ts ls source order path item Hp Hnd Hlocal Hsrc Hin Hkey Hno.
  apply keys_get_Some in Hkey as [o Ho].
  set (zh := process_translation ts ls path).
  assert (Ezh : zh = fold_left
                       (fun d kv => set (fst kv) (normalize (snd kv)) d)
                       (map (fun it => (item_key it, resolved_value it)) ts)
                       (local_entries ls)).
  { unfold zh, process_translation, translate.
    now rewrite Hp, combine_map. }
  assert (Hget : get (item_key item) zh
                 = Some (normalize (resolved_value item))).
  { rewrite Ezh. apply (fold_store_get_in normalize).
    - now rewrite map_map.
    - apply in_map_iff. now exists item. }
  destruct (@save_translation_get pystr zh source order (item_key item) o)
    as [doc [log [Hs Hd]]]; auto.
  - rewrite Ezh. now apply (fold_store_wf normalize).
  - intros p Hpk. apply Hno. rewrite Ezh in Hpk.
    apply fold_store_keys_In in Hpk. now rewrite map_map in Hpk.
  - exists doc, log. split; [exact Hs|]. rewrite Hd.
    unfold get_default. now rewrite Hget.
Qed.

Lemma reconcile_translated_key_witness :
  contains (py "ftbquest") (py "en_us.json") = false /\
  NoDup (map item_key scenario_entries) /\
  wf scenario_source /\
  exists doc log,
    save_translation
      (process_translation scenario_entries (Some scenario_source)
         (py "en_us.json"))
      (Some scenario_source) (keys scenario_source) = Ok (doc, log) /\
    get (py "a") doc = Some (normalize [30002%N]).
Proof.
  split; [reflexivity|].
  split; [exact scenario_entries_NoDup|].
  split; [exact wf_scenario_source|].
  apply (@reconcile_translated_key scenario_entries (Some scenario_source)
           scenario_source (keys scenario_source) (py "en_us.json")
           {| item_key := py "a"; item_original := Some (py "A");
              item_translation := Some [30002%N]; item_stage := 1 |}).
  - reflexivity.
  - exact scenario_entries_NoDup.
  - exact wf_scenario_source.
  - exact wf_scenario_source.
  - now left.
  - now left.
  - intros p [[<-|[<-|[]]]|[<-|[]]] Hm; vm_compute in Hm; discriminate.
Defined.
